(** * TelTextField: input normalisation, validation skip logic, indicator
    and debounce of [web/src/app/util/TelTextField.tsx].

    JavaScript strings are sequences of UTF-16 code units; they are modelled
    as lists of code units ([N]).  The three regular expressions of the
    component carry no flags except [g], so they work on code units as well. *)

From Stdlib Require Import NArith Bool List String Ascii Lia.
From stdpp Require Import base option list gmap.
Import ListNotations.

Set Default Proof Using "Type".

(** ** JavaScript strings *)

Module JS.

Definition code_unit := N.
Definition jsstring := list code_unit.

(** A string literal of the source, as code units. *)
Definition lit (s : string) : jsstring :=
  List.map N_of_ascii (list_ascii_of_string s).
Arguments lit s%_string.

(** JavaScript truthiness of a string: only [''] is falsy. *)
Definition truthy (s : jsstring) : bool :=
  match s with [] => false | _ :: _ => true end.

(** [s === ''] *)
Definition strict_eq_empty (s : jsstring) : bool :=
  match s with [] => true | _ :: _ => false end.

(** ECMAScript [WhiteSpace] and [LineTerminator] code units, the ones
    [String.prototype.trimLeft] removes. *)
Definition is_white_space (u : code_unit) : bool :=
  ((9 <=? u) && (u <=? 13) || (u =? 32) || (u =? 160) || (u =? 5760)
   || (8192 <=? u) && (u <=? 8202) || (u =? 8232) || (u =? 8233)
   || (u =? 8239) || (u =? 8287) || (u =? 12288) || (u =? 65279))%N.

Fixpoint trimLeft (s : jsstring) : jsstring :=
  match s with
  | [] => []
  | u :: s' => if is_white_space u then trimLeft s' else s
  end.

(** *** Character classes and regular expressions *)

(** A bracket class [[...]] or [[^...]]: inclusive code unit ranges. *)
Record charclass := CharClass {
  negated : bool;
  ranges : list (code_unit * code_unit)
}.

Definition in_range (u : code_unit) (r : code_unit * code_unit) : bool :=
  ((fst r <=? u) && (u <=? snd r))%N.

Definition class_test (k : charclass) (u : code_unit) : bool :=
  xorb (negated k) (existsb (in_range u) (ranges k)).

Inductive regex :=
| Empty : regex                     (* matches nothing *)
| Eps : regex                       (* matches the empty string *)
| Class : charclass -> regex
| Cat : regex -> regex -> regex
| Alt : regex -> regex -> regex
| Star : regex -> regex.

Definition Chr (u : code_unit) : regex := Class (CharClass false [(u, u)]).
Definition Plus (r : regex) : regex := Cat r (Star r).

Fixpoint nullable (r : regex) : bool :=
  match r with
  | Empty => false
  | Eps => true
  | Class _ => false
  | Cat r1 r2 => nullable r1 && nullable r2
  | Alt r1 r2 => nullable r1 || nullable r2
  | Star _ => true
  end.

Fixpoint deriv (u : code_unit) (r : regex) : regex :=
  match r with
  | Empty => Empty
  | Eps => Empty
  | Class k => if class_test k u then Eps else Empty
  | Cat r1 r2 =>
      if nullable r1 then Alt (Cat (deriv u r1) r2) (deriv u r2)
      else Cat (deriv u r1) r2
  | Alt r1 r2 => Alt (deriv u r1) (deriv u r2)
  | Star r1 => Cat (deriv u r1) (Star r1)
  end.

(** [/^r$/.test(s)] *)
Fixpoint test_whole (r : regex) (s : jsstring) : bool :=
  match s with
  | [] => nullable r
  | u :: s' => test_whole (deriv u r) s'
  end.

(** [/^r/.test(s)]: some prefix of [s] matches [r]. *)
Fixpoint test_start (r : regex) (s : jsstring) : bool :=
  nullable r ||
  match s with
  | [] => false
  | u :: s' => test_start (deriv u r) s'
  end.

(** [s.replace(/k/g, '')] for a one-character class [k]: every code unit in
    the class is removed. *)
Definition remove_all (k : charclass) (s : jsstring) : jsstring :=
  List.filter (fun u => negb (class_test k u)) s.

(** Denotation of a regular expression, used to state what the tests mean. *)
Inductive matches : regex -> jsstring -> Prop :=
| m_eps : matches Eps []
| m_class k u : class_test k u = true -> matches (Class k) [u]
| m_cat r1 r2 s1 s2 :
    matches r1 s1 -> matches r2 s2 -> matches (Cat r1 r2) (s1 ++ s2)
| m_alt_l r1 r2 s : matches r1 s -> matches (Alt r1 r2) s
| m_alt_r r1 r2 s : matches r2 s -> matches (Alt r1 r2) s
| m_star_nil r : matches (Star r) []
| m_star_app r s1 s2 :
    matches r s1 -> matches (Star r) s2 -> matches (Star r) (s1 ++ s2).

End JS.

Import JS.

(** ** The component *)

(** [type InputType = 'tel' | 'sid'] *)
Inductive InputType := tel | sid.

Definition InputType_eqb (a b : InputType) : bool :=
  match a, b with
  | tel, tel => true
  | sid, sid => true
  | _, _ => false
  end.

(** [Array.prototype.includes] *)
Definition includes (l : list InputType) (x : InputType) : bool :=
  existsb (InputType_eqb x) l.

(** The event handed to [handleChange]; only [e.target.value] is used. *)
Record ChangeEvent := { target_value : jsstring }.

(** [data] of the query: [{ phoneNumberInfo: { id, valid } | null }]. *)
Record PhoneNumberInfo := { info_id : jsstring; info_valid : bool }.
Record QueryData := { phoneNumberInfo : option PhoneNumberInfo }.

(** The adornment element, when there is one. *)
Inductive Adornment := Check | Close.

Section Component.

(** State of the host form, changed by its [onChange] callback only. *)
Context {Host : Type}.

(** The props the component reads; an absent optional prop is [None]. *)
Record Props := {
  prop_value : option jsstring;
  prop_inputTypes : option (list InputType);
  prop_disabled : option bool;
  prop_onChange : option (ChangeEvent -> Host -> Host)
}.

(** [const { inputTypes = ['tel'], value = '' } = props] *)
Definition inputTypes (p : Props) : list InputType :=
  default [tel] (prop_inputTypes p).
Definition value (p : Props) : jsstring := default [] (prop_value p).
(** [props.disabled] in a condition *)
Definition disabled (p : Props) : bool := default false (prop_disabled p).

End Component.

Arguments Props Host : clear implicits.

Definition digit : charclass := CharClass false [(48, 57)]%N.
Definition alnum : charclass := CharClass false [(97, 122); (65, 90); (48, 57)]%N.

(** [const reTel = /^\+\d+/] *)
Definition reTel : regex := Cat (Chr 43%N) (Plus (Class digit)).
(** [const reSID = /^MG[a-zA-Z0-9]+/] *)
Definition reSID : regex :=
  Cat (Chr 77%N) (Cat (Chr 71%N) (Plus (Class alnum))).

(** [inputTypes.length === 1 && inputTypes[0] === 'tel'] *)
Definition onlyTel (l : list InputType) : bool :=
  (length l =? 1)%nat &&
  match l !! 0%nat with Some x => InputType_eqb x tel | None => false end.
(** [inputTypes.length === 1 && inputTypes[0] === 'sid'] *)
Definition onlySID (l : list InputType) : bool :=
  (length l =? 1)%nat &&
  match l !! 0%nat with Some x => InputType_eqb x sid | None => false end.

Definition isSID (l : list InputType) (s : jsstring) : bool :=
  includes l sid && test_start reSID s.

Section Render.

Context {Host : Type}.
Implicit Types (p : Props Host) (s : jsstring).

Definition skipValidation p (debouncedValue : jsstring) : bool :=
  if negb (truthy debouncedValue) || disabled p
     || negb (includes (inputTypes p) tel)
  then true
  else if onlyTel (inputTypes p) && negb (test_start reTel debouncedValue)
  then true
  else if isSID (inputTypes p) debouncedValue then true
  else if onlySID (inputTypes p) then true
  else false.

(** [Boolean(data?.phoneNumberInfo?.valid)] *)
Definition valid (data : option QueryData) : bool :=
  match data with
  | Some d =>
      match phoneNumberInfo d with
      | Some i => info_valid i
      | None => false
      end
  | None => false
  end.

Definition adorn p (data : option QueryData) : option Adornment :=
  if strict_eq_empty (value p)
     || isSID (inputTypes p) (value p) || disabled p
  then None
  else if valid data then Some Check
  else Some Close.

(** [/^[+\d(]/.test(e.target.value.trimLeft())] *)
Definition likeTel : charclass := CharClass false [(43, 43); (48, 57); (40, 40)]%N.
Definition isLikeTel (s : jsstring) : bool :=
  test_start (Class likeTel) (trimLeft s).

Definition not_digit : charclass := CharClass true [(48, 57)]%N.
Definition not_alnum : charclass :=
  CharClass true [(97, 122); (65, 90); (48, 57)]%N.

(** The handler mutates the event and calls the host's callback with it; the
    result is the event as the handler leaves it and the host's state. *)
Definition handleChange p (e : ChangeEvent) (h : Host) : ChangeEvent * Host :=
  match prop_onChange p with
  | None => (e, h)
  | Some onChange =>
      if negb (truthy (target_value e)) then (e, onChange e h)
      else
        let e' :=
          if onlyTel (inputTypes p) || isLikeTel (target_value e)
          then {| target_value := 43%N :: remove_all not_digit (target_value e) |}
          else {| target_value := remove_all not_alnum (target_value e) |} in
        (e', onChange e' h)
  end.

End Render.

(** ** The query options handed to [useQuery] *)

Inductive FetchPolicy := cache_first.

Record QueryOptions := {
  pollInterval : nat;
  variables_number : jsstring;
  fetchPolicy : FetchPolicy;
  skip : bool
}.

Definition query_options {Host} (p : Props Host) (debouncedValue : jsstring)
  : QueryOptions :=
  {| pollInterval := 0;
     variables_number := debouncedValue;
     fetchPolicy := cache_first;
     skip := skipValidation p debouncedValue |}.

(** ** What the specification calls things *)

Module Spec.

Definition is_digit (u : code_unit) : Prop := (48 <= u <= 57)%N.
Definition is_alnum (u : code_unit) : Prop :=
  (97 <= u <= 122)%N \/ (65 <= u <= 90)%N \/ (48 <= u <= 57)%N.

(** "starts with [+] followed by one or more digits" *)
Definition phone_pattern (s : jsstring) : Prop :=
  exists ds rest, ds <> [] /\ Forall is_digit ds /\ s = 43%N :: ds ++ rest.

(** "starts with literal [MG] followed by one or more alphanumeric
    characters" *)
Definition identifier_pattern (s : jsstring) : Prop :=
  exists body rest,
    body <> [] /\ Forall is_alnum body /\ s = 77%N :: 71%N :: body ++ rest.

(** The three modes, derived from the configured list of input kinds. *)
Definition mode_includes (l : list InputType) (x : InputType) : Prop := In x l.
Definition tel_only (l : list InputType) : Prop := l = [tel].
Definition sid_only (l : list InputType) : Prop := l = [sid].
Definition mixed (l : list InputType) : Prop :=
  mode_includes l tel /\ mode_includes l sid.
Definition is_mode (l : list InputType) : Prop :=
  tel_only l \/ sid_only l \/ mixed l.

(** [^\+[0-9]*$] and [^[a-zA-Z0-9]*$], the patterns of the normalised
    outputs. *)
Definition re_plus_digits : regex := Cat (Chr 43%N) (Star (Class digit)).
Definition re_alnums : regex := Star (Class alnum).

(** Normalised phone form: [+] followed by one or more digits, nothing else. *)
Definition phone_form (s : jsstring) : Prop :=
  exists ds, ds <> [] /\ Forall is_digit ds /\ s = 43%N :: ds.
(** Normalised identifier form: alphanumeric only, non-empty. *)
Definition identifier_form (s : jsstring) : Prop :=
  s <> [] /\ Forall is_alnum s.

(** "the trimmed-leading-whitespace value starts with [+], a digit, or [(]" *)
Definition starts_phone_like (s : jsstring) : Prop :=
  exists c rest,
    trimLeft s = c :: rest /\ (c = 43%N \/ is_digit c \/ c = 40%N).

Definition starts_with_digit (s : jsstring) : Prop :=
  exists c rest, s = c :: rest /\ is_digit c.

(** The tri-state the lookup result stands for. *)
Inductive ValidationState := unknown | is_valid | invalid.

Definition validation_state (data : option QueryData) : ValidationState :=
  match data with
  | Some {| phoneNumberInfo := Some i |} =>
      if info_valid i then is_valid else invalid
  | _ => unknown
  end.

End Spec.

(** ** The debounce effect

    [useEffect(() => { const t = setTimeout(() => setDebouncedValue(value),
    DEBOUNCE_DELAY); return () => clearTimeout(t) }, [value])].

    React does not run an effect, or its cleanup, when the render commits:
    it runs them later, and guarantees only that the effects of one render
    have run before the next render starts.  Until then the timeout of the
    previous effect stays pending and may fire.  The model keeps the work
    React still owes ([pending]) and gives the moment it is done an event of
    its own, [Flush].  Time is counted in milliseconds. *)

Module Debounce.

(** A pending timeout: when it is due, and the [value] its callback closed
    over. *)
Record Timer := { due : nat; captured : jsstring }.

(** Effect work committed and not yet run. *)
Inductive Passive :=
| rerun (v : jsstring)     (* the old cleanup, then the effect of the render
                              with [value = v] *)
| teardown.                (* the cleanup of an unmounted component *)

Record World := {
  now : nat;
  next_timer : nat;                (* the id the next [setTimeout] returns *)
  timers : gmap nat Timer;         (* pending timeouts *)
  mounted : bool;
  raw : jsstring;                  (* [value] at the last render *)
  cleanup : option nat;            (* [t] of the cleanup not yet run *)
  debouncedValue : jsstring;
  pending : option Passive
}.

Inductive Event :=
| Render (v : jsstring)            (* the host renders with [value = v] *)
| Flush                            (* React runs the effects it owes *)
| Elapse (d : nat)                 (* [d] milliseconds pass *)
| Fire (t : nat)                   (* the event loop runs timeout [t] *)
| Unmount.

Section Delay.

(** [DEBOUNCE_DELAY] of [../config]. *)
Variable DEBOUNCE_DELAY : nat.

(** [const t = setTimeout(() => setDebouncedValue(value), DEBOUNCE_DELAY)]
    and the cleanup [() => clearTimeout(t)] kept for later. *)
Definition run_effect (v : jsstring) (w : World) : World :=
  let t := next_timer w in
  {| now := now w;
     next_timer := S t;
     timers :=
       <[t := {| due := now w + DEBOUNCE_DELAY; captured := v |}]> (timers w);
     mounted := mounted w;
     raw := raw w;
     cleanup := Some t;
     debouncedValue := debouncedValue w;
     pending := pending w |}.

(** [clearTimeout(t)] *)
Definition run_cleanup (w : World) : World :=
  match cleanup w with
  | None => w
  | Some t =>
      {| now := now w;
         next_timer := next_timer w;
         timers := delete t (timers w);
         mounted := mounted w;
         raw := raw w;
         cleanup := None;
         debouncedValue := debouncedValue w;
         pending := pending w |}
  end.

Definition set_pending (q : option Passive) (w : World) : World :=
  {| now := now w; next_timer := next_timer w; timers := timers w;
     mounted := mounted w; raw := raw w; cleanup := cleanup w;
     debouncedValue := debouncedValue w; pending := q |}.

(** React runs what it owes: the cleanup of the previous effect, then the
    new effect; in one go, no timeout runs in between. *)
Definition flush (w : World) : World :=
  match pending w with
  | Some (rerun v) => set_pending None (run_effect v (run_cleanup w))
  | Some teardown => set_pending None (run_cleanup w)
  | None => w
  end.

(** A render with a new [value] commits: the effect is owed. *)
Definition commit (v : jsstring) (w : World) : World :=
  {| now := now w; next_timer := next_timer w; timers := timers w;
     mounted := mounted w; raw := v; cleanup := cleanup w;
     debouncedValue := debouncedValue w; pending := Some (rerun v) |}.

(** The unmount commits: the cleanup is owed. *)
Definition commit_unmount (w : World) : World :=
  {| now := now w; next_timer := next_timer w; timers := timers w;
     mounted := false; raw := raw w; cleanup := cleanup w;
     debouncedValue := debouncedValue w; pending := Some teardown |}.

(** The timeout's callback: [setDebouncedValue(value)]; React drops a state
    update of a component that is gone. *)
Definition fire (t : nat) (tm : Timer) (w : World) : World :=
  {| now := now w; next_timer := next_timer w;
     timers := delete t (timers w);
     mounted := mounted w; raw := raw w; cleanup := cleanup w;
     debouncedValue := if mounted w then captured tm else debouncedValue w;
     pending := pending w |}.

(** First render at time [t0]: [useState('')]; the effect is owed. *)
Definition mount (t0 id0 : nat) (v : jsstring) : World :=
  {| now := t0; next_timer := id0; timers := ∅; mounted := true;
     raw := v; cleanup := None; debouncedValue := [];
     pending := Some (rerun v) |}.

(** One event; [None] when the event cannot happen in [w]: a render or an
    unmount of a component that is gone, a timeout that is not pending or
    not yet due.  A render and an unmount start by running the effects
    still owed. *)
Definition step (w : World) (ev : Event) : option World :=
  match ev with
  | Render v =>
      if mounted w then
        let w1 := flush w in
        if decide (v = raw w1) then Some w1 else Some (commit v w1)
      else None
  | Flush => Some (flush w)
  | Elapse d =>
      Some {| now := now w + d; next_timer := next_timer w;
              timers := timers w; mounted := mounted w; raw := raw w;
              cleanup := cleanup w; debouncedValue := debouncedValue w;
              pending := pending w |}
  | Fire t =>
      match timers w !! t with
      | Some tm =>
          if decide (due tm <= now w) then Some (fire t tm w) else None
      | None => None
      end
  | Unmount =>
      if mounted w then Some (commit_unmount (flush w)) else None
  end.

Fixpoint run (w : World) (evs : list Event) : option World :=
  match evs with
  | [] => Some w
  | ev :: evs' =>
      match step w ev with
      | Some w' => run w' evs'
      | None => None
      end
  end.

Definition is_Fire (ev : Event) : bool :=
  match ev with Fire _ => true | _ => false end.

(** At most one timeout is pending: the one the kept cleanup will clear. *)
Definition single_pending (w : World) : Prop :=
  (forall t tm, timers w !! t = Some tm -> cleanup w = Some t)
  /\ (forall t, cleanup w = Some t -> t < next_timer w).

(** What is owed fits the component: an effect is owed to a mounted
    component, for its current [value]; a cleanup to one that is gone; and
    a component that is gone and owed nothing has no cleanup left. *)
Definition owed_fits (w : World) : Prop :=
  match pending w with
  | Some (rerun v) => mounted w = true /\ v = raw w
  | Some teardown => mounted w = false
  | None => mounted w = false -> cleanup w = None
  end.

(** Once the effects have run, a pending timeout carries the current
    [value]. *)
Definition up_to_date (w : World) : Prop :=
  pending w = None ->
  forall t tm, timers w !! t = Some tm -> captured tm = raw w.

Definition coherent (w : World) : Prop :=
  single_pending w /\ owed_fits w /\ up_to_date w.

(** No pending timeout is due before time [T]. *)
Definition none_due_before (T : nat) (w : World) : Prop :=
  forall t tm, timers w !! t = Some tm -> T <= due tm.

(** Timeout [k] was handed out and is no longer pending. *)
Definition retired (k : nat) (w : World) : Prop :=
  timers w !! k = None /\ k < next_timer w.

End Delay.

End Debounce.

(** ** Sample hosts and props *)

Module Examples.

(** A host that records the value of every event its callback receives. *)
Definition recording (e : ChangeEvent) (h : list jsstring) : list jsstring :=
  h ++ [target_value e].

Definition props_of (types : option (list InputType)) (v : jsstring)
  : Props (list jsstring) :=
  {| prop_value := Some v; prop_inputTypes := types;
     prop_disabled := None; prop_onChange := Some recording |}.

Definition change (v : jsstring) : ChangeEvent := {| target_value := v |}.

Definition resolved (b : bool) : option QueryData :=
  Some {| phoneNumberInfo := Some {| info_id := lit "1"; info_valid := b |} |}.

End Examples.

(** ** Helper text and input props

    React nodes are opaque: the component only asks whether the host's
    helper text is truthy, turns its own strings into nodes and wraps the
    adornment in [<InputAdornment position='end'>]. *)

Section Presentation.

Context {Host Node : Type}.
Variable node_truthy : Node -> bool.
Variable text : jsstring -> Node.
Variable end_adornment : Adornment -> Node.

(** The text field props the component reads besides those of [Props];
    [InputProps] is an object, a finite map from property names. *)
Record TextFieldProps := {
  prop_helperText : option Node;
  prop_InputProps : option (gmap jsstring Node)
}.

(** [adorn ? { endAdornment: <InputAdornment ...>, ...props.InputProps }
          : props.InputProps]: the spread comes last, so the host's
    properties overwrite. *)
Definition InputProps (p : Props Host) (r : TextFieldProps)
    (data : option QueryData) : option (gmap jsstring Node) :=
  match adorn p data with
  | Some a =>
      Some (default ∅ (prop_InputProps r)
            ∪ {[ lit "endAdornment" := end_adornment a ]})
  | None => prop_InputProps r
  end.

Definition getHelperText (p : Props Host) (r : TextFieldProps) : Node :=
  let otherwise :=
    if onlyTel (inputTypes p)
    then text (lit "Include country code e.g. +1 (USA), +91 (India), +44 (UK)")
    else if includes (inputTypes p) tel
    then text (lit "For phone numbers, include country code e.g. +1 (USA), +91 (India), +44 (UK)")
    else text [] in
  match prop_helperText r with
  | Some n => if node_truthy n then n else otherwise
  | None => otherwise
  end.

End Presentation.

Arguments TextFieldProps Node : clear implicits.

(** The value [handleChange] leaves in the event once a callback is
    configured (lines 112 to 120 of the source, without the callback). *)
Definition normalised (l : list InputType) (v : jsstring) : jsstring :=
  if negb (truthy v) then v
  else if onlyTel l || isLikeTel v then 43%N :: remove_all not_digit v
  else remove_all not_alnum v.

(** ** More invariants of the debounce effect *)

Module DebounceInv.

Import Debounce.

(** Every pending timeout is due at most [D] from now. *)
Definition due_within (D : nat) (w : World) : Prop :=
  forall t tm, timers w !! t = Some tm -> due tm <= now w + D.

(** A mounted component that is owed nothing and has nothing pending has
    caught up. *)
Definition idle_in_sync (w : World) : Prop :=
  mounted w = true -> pending w = None -> timers w = ∅ ->
  debouncedValue w = raw w.

(** The values [value] had up to now: at the mount and at the renders. *)
Definition rendered (v0 : jsstring) (evs : list Event) (v : jsstring) : Prop :=
  v = v0 \/ In (Render v) evs.

(** Every value a pending timeout would install was rendered. *)
Definition captured_rendered (v0 : jsstring) (evs : list Event) (w : World)
  : Prop :=
  forall t tm, timers w !! t = Some tm -> rendered v0 evs (captured tm).

End DebounceInv.

(** ** The regular expression tests decide the denotation *)

Module JSFacts.

Lemma matches_star_cons r u s :
  matches (Star r) (u :: s) ->
  exists s1 s2, s = s1 ++ s2 /\ matches r (u :: s1) /\ matches (Star r) s2.
Proof.
  intros H. remember (Star r) as r' eqn:Er. remember (u :: s) as s' eqn:Es.
  revert u s Er Es.
  induction H as [| | | | | |r0 s1 s2 H1 _ H2 IH2]; intros a t Er Es;
    try discriminate.
  injection Er as ->.
  destruct s1 as [|u1 s1]; simpl in Es.
  - eapply IH2; eauto.
  - injection Es as <- <-. eauto.
Qed.

Lemma nullable_matches r : nullable r = true <-> matches r [].
Proof.
  induction r as [| |k|r1 IH1 r2 IH2|r1 IH1 r2 IH2|r1 IH1]; simpl.
  - split; [discriminate | inversion 1].
  - split; [constructor | reflexivity].
  - split; [discriminate | inversion 1].
  - rewrite andb_true_iff, IH1, IH2. split.
    + intros [H1 H2]. apply (m_cat _ _ [] []); assumption.
    + inversion 1 as [| |? ? s1 s2 H1 H2 E1 E2| | | |]; subst.
      apply app_eq_nil in E2 as [-> ->]. auto.
  - rewrite orb_true_iff, IH1, IH2. split.
    + intros [H|H]; [apply m_alt_l | apply m_alt_r]; assumption.
    + inversion 1; subst; auto.
  - split; [constructor | reflexivity].
Qed.

Lemma deriv_matches u r s : matches (deriv u r) s <-> matches r (u :: s).
Proof.
  revert s.
  induction r as [| |k|r1 IH1 r2 IH2|r1 IH1 r2 IH2|r1 IH1]; intros s; simpl.
  - split; inversion 1.
  - split; inversion 1.
  - destruct (class_test k u) eqn:Hk; split.
    + inversion 1; subst. constructor. assumption.
    + inversion 1; subst. constructor.
    + inversion 1.
    + inversion 1; subst. congruence.
  - assert (Hcat : matches (Cat (deriv u r1) r2) s ->
                   matches (Cat r1 r2) (u :: s)).
    { inversion 1 as [| |? ? s1 s2 H1 H2| | | |]; subst.
      apply IH1 in H1. apply (m_cat _ _ (u :: s1) s2); assumption. }
    destruct (nullable r1) eqn:Hn; split.
    + inversion 1 as [| | |? ? ? H1|? ? ? H2| |]; subst; [auto|].
      apply IH2 in H2. apply nullable_matches in Hn.
      apply (m_cat _ _ [] (u :: s)); assumption.
    + inversion 1 as [| |? ? s1 s2 H1 H2 E1 E2| | | |]; subst.
      destruct s1 as [|u1 s1]; simpl in E2.
      * subst s2. apply m_alt_r, IH2. assumption.
      * injection E2 as <- <-. apply m_alt_l, m_cat; [apply IH1|]; assumption.
    + exact Hcat.
    + inversion 1 as [| |? ? s1 s2 H1 H2 E1 E2| | | |]; subst.
      destruct s1 as [|u1 s1]; simpl in E2.
      * apply nullable_matches in H1. congruence.
      * injection E2 as <- <-. apply m_cat; [apply IH1|]; assumption.
  - split.
    + inversion 1; subst; [apply m_alt_l, IH1 | apply m_alt_r, IH2];
        assumption.
    + inversion 1; subst; [apply m_alt_l, IH1 | apply m_alt_r, IH2];
        assumption.
  - split.
    + inversion 1 as [| |? ? s1 s2 H1 H2| | | |]; subst.
      apply IH1 in H1. apply (m_star_app _ (u :: s1) s2); assumption.
    + intros H. apply matches_star_cons in H as (s1 & s2 & -> & H1 & H2).
      apply m_cat; [apply IH1|]; assumption.
Qed.

Lemma test_whole_matches r s : test_whole r s = true <-> matches r s.
Proof.
  revert r. induction s as [|u s IH]; intros r; simpl.
  - apply nullable_matches.
  - rewrite IH. apply deriv_matches.
Qed.

Lemma test_start_matches r s :
  test_start r s = true <-> exists s1 s2, s = s1 ++ s2 /\ matches r s1.
Proof.
  revert r. induction s as [|u s IH]; intros r; simpl.
  - rewrite orb_false_r, nullable_matches. split.
    + intros H. exists [], []. auto.
    + intros (s1 & s2 & E & H). symmetry in E.
      apply app_eq_nil in E as [-> _]. assumption.
  - rewrite orb_true_iff, IH, nullable_matches. split.
    + intros [H|(s1 & s2 & -> & H)].
      * exists [], (u :: s). auto.
      * exists (u :: s1), s2. split; [reflexivity|]. apply deriv_matches, H.
    + intros (s1 & s2 & E & H). destruct s1 as [|u1 s1]; [auto|].
      simpl in E. injection E as <- ->. right. exists s1, s2.
      split; [reflexivity|]. apply deriv_matches, H.
Qed.

Lemma matches_class k s :
  matches (Class k) s <-> exists u, s = [u] /\ class_test k u = true.
Proof.
  split.
  - inversion 1; subst. eauto.
  - intros (u & -> & H). constructor. assumption.
Qed.

Lemma matches_chr c s : matches (Chr c) s <-> s = [c].
Proof.
  unfold Chr. rewrite matches_class. unfold class_test, in_range. simpl.
  split.
  - intros (u & -> & H). f_equal.
    rewrite orb_false_r, andb_true_iff, !N.leb_le in H. lia.
  - intros ->. exists c. split; [reflexivity|].
    rewrite orb_false_r, andb_true_iff, !N.leb_le. lia.
Qed.

Lemma matches_cat r1 r2 s :
  matches (Cat r1 r2) s <->
  exists s1 s2, s = s1 ++ s2 /\ matches r1 s1 /\ matches r2 s2.
Proof.
  split.
  - inversion 1; subst. eauto.
  - intros (s1 & s2 & -> & H1 & H2). constructor; assumption.
Qed.

Lemma matches_star_class k s :
  matches (Star (Class k)) s <-> Forall (fun u => class_test k u = true) s.
Proof.
  split.
  - intros H. remember (Star (Class k)) as r eqn:Er. revert Er.
    induction H as [| | | | | |r0 s1 s2 H1 _ H2 IH2]; intros Er;
      try discriminate.
    + constructor.
    + injection Er as ->. apply matches_class in H1 as (u & -> & Hu).
      constructor; auto.
  - induction 1 as [|u s Hu _ IH]; [constructor|].
    apply (m_star_app _ [u] s); [constructor|]; assumption.
Qed.

Lemma matches_plus_class k s :
  matches (Plus (Class k)) s <->
  s <> [] /\ Forall (fun u => class_test k u = true) s.
Proof.
  unfold Plus. rewrite matches_cat. split.
  - intros (s1 & s2 & -> & H1 & H2).
    apply matches_class in H1 as (u & -> & Hu).
    apply matches_star_class in H2. split; [discriminate|].
    constructor; assumption.
  - intros [Hne H]. destruct H as [|u s Hu H]; [congruence|].
    exists [u], s. split; [reflexivity|]. split.
    + constructor. assumption.
    + apply matches_star_class. assumption.
Qed.

Lemma digit_test u : class_test digit u = true <-> Spec.is_digit u.
Proof.
  unfold class_test, digit, in_range, Spec.is_digit. simpl.
  rewrite orb_false_r, andb_true_iff, !N.leb_le. reflexivity.
Qed.

Lemma alnum_test u : class_test alnum u = true <-> Spec.is_alnum u.
Proof.
  unfold class_test, alnum, in_range, Spec.is_alnum. simpl.
  rewrite orb_false_r, !orb_true_iff, !andb_true_iff, !N.leb_le. reflexivity.
Qed.

End JSFacts.

(** ** Facts about the component's helpers *)

Section HelperFacts.

Lemma truthy_false s : truthy s = false <-> s = [].
Proof. destruct s; simpl; split; congruence. Qed.

Lemma strict_eq_empty_true s : strict_eq_empty s = true <-> s = [].
Proof. destruct s; simpl; split; congruence. Qed.

Lemma includes_In l x : includes l x = true <-> Spec.mode_includes l x.
Proof.
  unfold includes, Spec.mode_includes. rewrite existsb_exists. split.
  - intros (y & Hy & E). destruct x, y; simpl in E; congruence.
  - intros H. exists x. split; [assumption|]. destruct x; reflexivity.
Qed.

Lemma includes_not_In l x : includes l x = false <-> ~ Spec.mode_includes l x.
Proof.
  rewrite <- includes_In. destruct (includes l x); split; congruence.
Qed.

Lemma onlyTel_true l : onlyTel l = true <-> Spec.tel_only l.
Proof.
  unfold onlyTel, Spec.tel_only.
  destruct l as [|[] [|y l]]; simpl; split; congruence.
Qed.

Lemma onlySID_true l : onlySID l = true <-> Spec.sid_only l.
Proof.
  unfold onlySID, Spec.sid_only.
  destruct l as [|[] [|y l]]; simpl; split; congruence.
Qed.

Lemma Forall_digit ds :
  Forall (fun u => class_test digit u = true) ds <-> Forall Spec.is_digit ds.
Proof. apply Forall_iff, JSFacts.digit_test. Qed.

Lemma Forall_alnum ds :
  Forall (fun u => class_test alnum u = true) ds <-> Forall Spec.is_alnum ds.
Proof. apply Forall_iff, JSFacts.alnum_test. Qed.

Lemma reTel_test s : test_start reTel s = true <-> Spec.phone_pattern s.
Proof.
  rewrite JSFacts.test_start_matches. unfold reTel, Spec.phone_pattern. split.
  - intros (s1 & rest & -> & H).
    apply JSFacts.matches_cat in H as (a & ds & -> & Ha & Hds).
    apply JSFacts.matches_chr in Ha as ->.
    apply JSFacts.matches_plus_class in Hds as [Hne Hds].
    exists ds, rest. rewrite <- Forall_digit. auto.
  - intros (ds & rest & Hne & Hds & ->). exists (43%N :: ds), rest.
    split; [reflexivity|]. apply (m_cat _ _ [43%N] ds).
    + apply JSFacts.matches_chr. reflexivity.
    + apply JSFacts.matches_plus_class. rewrite Forall_digit. auto.
Qed.

Lemma reSID_test s : test_start reSID s = true <-> Spec.identifier_pattern s.
Proof.
  rewrite JSFacts.test_start_matches. unfold reSID, Spec.identifier_pattern.
  split.
  - intros (s1 & rest & -> & H).
    apply JSFacts.matches_cat in H as (a & s2 & -> & Ha & H).
    apply JSFacts.matches_cat in H as (b & body & -> & Hb & Hbody).
    apply JSFacts.matches_chr in Ha as ->.
    apply JSFacts.matches_chr in Hb as ->.
    apply JSFacts.matches_plus_class in Hbody as [Hne Hbody].
    exists body, rest. rewrite <- Forall_alnum. auto.
  - intros (body & rest & Hne & Hbody & ->).
    exists (77%N :: 71%N :: body), rest. split; [reflexivity|].
    apply (m_cat _ _ [77%N] (71%N :: body)).
    + apply JSFacts.matches_chr. reflexivity.
    + apply (m_cat _ _ [71%N] body).
      * apply JSFacts.matches_chr. reflexivity.
      * apply JSFacts.matches_plus_class. rewrite Forall_alnum. auto.
Qed.

Lemma isSID_true l s :
  isSID l s = true <-> Spec.mode_includes l sid /\ Spec.identifier_pattern s.
Proof.
  unfold isSID. rewrite andb_true_iff, includes_In, reSID_test. reflexivity.
Qed.

End HelperFacts.

(** ** Validation trigger and indicator *)

Section Trigger.

Context {Host : Type}.
Implicit Types (p : Props Host) (s : jsstring).

Lemma skipValidation_orb p s :
  skipValidation p s =
  negb (truthy s) || disabled p || negb (includes (inputTypes p) tel)
  || onlyTel (inputTypes p) && negb (test_start reTel s)
  || isSID (inputTypes p) s || onlySID (inputTypes p).
Proof.
  unfold skipValidation.
  destruct (truthy s), (disabled p), (includes (inputTypes p) tel),
    (onlyTel (inputTypes p)), (test_start reTel s), (isSID (inputTypes p) s),
    (onlySID (inputTypes p)); reflexivity.
Qed.

Lemma not_phone_pattern s :
  test_start reTel s = false <-> ~ Spec.phone_pattern s.
Proof.
  rewrite <- reTel_test. destruct (test_start reTel s); split; congruence.
Qed.

Lemma phone_not_identifier s :
  Spec.phone_pattern s -> ~ Spec.identifier_pattern s.
Proof.
  intros (ds & r1 & _ & _ & ->) (body & r2 & _ & _ & E). discriminate.
Qed.

(** C1. The lookup is skipped exactly when one of the six conditions holds:
    the debounced value is empty, the field is disabled, the mode does not
    include [tel], the mode is tel-only and the value fails the phone
    pattern, the value has the identifier pattern and the mode includes
    [sid], or the mode is sid-only.  In tel-only mode, not disabled, the
    value [+14155551234] is looked up. *)
Theorem skip_iff_six_conditions p (debouncedValue : jsstring) :
  (skip (query_options p debouncedValue) = true <->
     debouncedValue = []
     \/ disabled p = true
     \/ ~ Spec.mode_includes (inputTypes p) tel
     \/ (Spec.tel_only (inputTypes p) /\ ~ Spec.phone_pattern debouncedValue)
     \/ (Spec.identifier_pattern debouncedValue
         /\ Spec.mode_includes (inputTypes p) sid)
     \/ Spec.sid_only (inputTypes p))
  /\ (Spec.tel_only (inputTypes p) -> disabled p = false ->
      skip (query_options p (lit "+14155551234")) = false).
Proof.
  split.
  - simpl. rewrite skipValidation_orb.
    rewrite !orb_true_iff, andb_true_iff, !negb_true_iff.
    rewrite truthy_false, includes_not_In, onlyTel_true, not_phone_pattern,
      isSID_true, onlySID_true.
    tauto.
  - intros Ht Hd. simpl. rewrite skipValidation_orb, Hd.
    unfold isSID. unfold Spec.tel_only in Ht. rewrite Ht. reflexivity.
Qed.

(** C5. In each of the three modes, a lookup is attempted only when the mode
    includes [tel] and the debounced value does not have the identifier
    pattern. *)
Theorem lookup_only_for_tel_non_identifier p (debouncedValue : jsstring) :
  Spec.is_mode (inputTypes p) ->
  skip (query_options p debouncedValue) = false ->
  Spec.mode_includes (inputTypes p) tel
  /\ ~ Spec.identifier_pattern debouncedValue.
Proof.
  intros Hmode. simpl. rewrite skipValidation_orb.
  rewrite !orb_false_iff, andb_false_iff, !negb_false_iff.
  intros [[[[[_ _] Htel] Hphone] Hsid] Honly].
  split; [apply includes_In, Htel|].
  destruct Hmode as [Ht | [Hs | [_ Hm]]].
  - apply onlyTel_true in Ht. destruct Hphone as [Hp|Hp]; [congruence|].
    apply phone_not_identifier, reTel_test, Hp.
  - apply onlySID_true in Hs. congruence.
  - intros Hid. assert (isSID (inputTypes p) debouncedValue = true) as E
      by (apply isSID_true; auto).
    congruence.
Qed.

(** The indicator is absent exactly when [value === ''], [isSID(value)] or
    [props.disabled]. *)
Lemma adorn_None p data :
  adorn p data = None <->
  value p = [] \/ isSID (inputTypes p) (value p) = true \/ disabled p = true.
Proof.
  unfold adorn. rewrite <- strict_eq_empty_true.
  destruct (strict_eq_empty (value p)), (isSID (inputTypes p) (value p)),
    (disabled p), (valid data); simpl; split;
    solve [ auto | discriminate | intros [H|[H|H]]; discriminate ].
Qed.

Lemma valid_validation_state data :
  valid data = true <-> Spec.validation_state data = Spec.is_valid.
Proof.
  unfold valid, Spec.validation_state.
  destruct data as [[[[i []]|]]|]; simpl; split; congruence.
Qed.

(** C4, as the code has it: no indicator exactly when the value is empty, or
    the mode includes [sid] and the value has the identifier pattern, or the
    field is disabled; otherwise the valid indicator for a valid state and
    the invalid one for both other states.  The value [MGxyz] in mixed mode
    and the empty value have no indicator, whatever the lookup gave. *)
Theorem indicator_cases p (data : option QueryData) :
  let absent :=
    value p = []
    \/ (Spec.mode_includes (inputTypes p) sid
        /\ Spec.identifier_pattern (value p))
    \/ disabled p = true in
  (adorn p data = None <-> absent)
  /\ (~ absent -> Spec.validation_state data = Spec.is_valid ->
      adorn p data = Some Check)
  /\ (~ absent -> Spec.validation_state data <> Spec.is_valid ->
      adorn p data = Some Close)
  /\ (value p = lit "MGxyz" -> inputTypes p = [tel; sid] ->
      adorn p data = None)
  /\ (value p = [] -> adorn p data = None).
Proof.
  intros absent.
  assert (Habs : adorn p data = None <-> absent).
  { rewrite adorn_None, isSID_true. reflexivity. }
  split; [exact Habs|].
  assert (Hshown : ~ absent ->
            adorn p data = Some (if valid data then Check else Close)).
  { intros Hn. rewrite <- Habs in Hn. unfold adorn in *.
    destruct (strict_eq_empty (value p) || isSID (inputTypes p) (value p)
              || disabled p); [congruence|].
    destruct (valid data); reflexivity. }
  repeat split.
  - intros Hn Hv. apply valid_validation_state in Hv.
    rewrite (Hshown Hn), Hv. reflexivity.
  - intros Hn Hv. rewrite (Hshown Hn).
    destruct (valid data) eqn:E; [|reflexivity].
    apply valid_validation_state in E. congruence.
  - intros Hv Hm. apply adorn_None. right; left. rewrite Hv, Hm. reflexivity.
  - intros Hv. apply adorn_None. auto.
Qed.

End Trigger.

(** C2. The classification is the identifier pattern only in the modes that
    include [sid]: [isSID] holds exactly when the mode includes [sid] and the
    string starts with [MG] followed by one or more alphanumerics. *)
Theorem isSID_iff_sid_mode_and_pattern (l : list InputType) (s : jsstring) :
  isSID l s = true <->
  Spec.mode_includes l sid /\ Spec.identifier_pattern s.
Proof. apply isSID_true. Qed.

(** C2 as stated fails: in tel-only mode [MGabc] has the identifier pattern
    and is not classified as an identifier. *)
Lemma isSID_pattern_only_fails :
  Spec.is_mode [tel]
  /\ Spec.identifier_pattern (lit "MGabc")
  /\ isSID [tel] (lit "MGabc") = false
  /\ isSID [tel; sid] (lit "MGabc") = true
  /\ ~ (forall l s, Spec.is_mode l ->
          (isSID l s = true <-> Spec.identifier_pattern s)).
Proof.
  assert (Hp : Spec.identifier_pattern (lit "MGabc"))
    by (apply reSID_test; reflexivity).
  repeat split; try assumption; try reflexivity.
  - left. reflexivity.
  - intros H. specialize (H [tel] (lit "MGabc")).
    assert (E : isSID [tel] (lit "MGabc") = true).
    { apply H; [left; reflexivity | exact Hp]. }
    discriminate E.
Qed.

(** C4 as stated fails: in tel-only mode the value [MGxyz] has the
    identifier pattern, the field is enabled, and the invalid indicator is
    shown. *)
Lemma indicator_shown_for_identifier_in_tel_only :
  let p := Examples.props_of (Some [tel]) (lit "MGxyz") in
  value p <> []
  /\ Spec.identifier_pattern (value p)
  /\ disabled p = false
  /\ adorn p None = Some Close
  /\ adorn p (Examples.resolved true) = Some Check
  /\ ~ (forall data,
          adorn p data = None <->
          value p = [] \/ Spec.identifier_pattern (value p)
          \/ disabled p = true).
Proof.
  intros p.
  assert (Hp : Spec.identifier_pattern (value p))
    by (apply reSID_test; reflexivity).
  repeat split; try assumption; try reflexivity; try discriminate.
  intros H. destruct (H None) as [_ H']. discriminate H'. auto.
Qed.

(** ** Input normaliser *)

Section Normaliser.

Context {Host : Type}.
Implicit Types (p : Props Host) (s v : jsstring) (e : ChangeEvent) (h : Host).

Lemma remove_all_not_digit s :
  remove_all not_digit s = List.filter (class_test digit) s.
Proof.
  unfold remove_all. apply List.filter_ext. intros u.
  unfold class_test. simpl. destruct (in_range u (48%N, 57%N)); reflexivity.
Qed.

Lemma remove_all_not_alnum s :
  remove_all not_alnum s = List.filter (class_test alnum) s.
Proof.
  unfold remove_all. apply List.filter_ext. intros u.
  unfold class_test. simpl.
  destruct (in_range u (97%N, 122%N) || (in_range u (65%N, 90%N)
            || (in_range u (48%N, 57%N) || false))); reflexivity.
Qed.

Lemma Forall_filter_test (f : code_unit -> bool) s :
  Forall (fun u => f u = true) (List.filter f s).
Proof.
  apply List.Forall_forall. intros u Hu.
  apply List.filter_In in Hu. tauto.
Qed.

Lemma filter_all_pass (f : code_unit -> bool) s :
  Forall (fun u => f u = true) s -> List.filter f s = s.
Proof.
  induction 1 as [|u s Hu _ IH]; simpl; [reflexivity|].
  rewrite Hu, IH. reflexivity.
Qed.

Lemma re_alnums_test s :
  test_whole Spec.re_alnums s = true <-> Forall Spec.is_alnum s.
Proof.
  unfold Spec.re_alnums.
  rewrite JSFacts.test_whole_matches, JSFacts.matches_star_class.
  apply Forall_alnum.
Qed.

Lemma re_plus_digits_test s :
  test_whole Spec.re_plus_digits s = true <->
  exists ds, s = 43%N :: ds /\ Forall Spec.is_digit ds.
Proof.
  unfold Spec.re_plus_digits.
  rewrite JSFacts.test_whole_matches, JSFacts.matches_cat. split.
  - intros (a & ds & -> & Ha & Hds). apply JSFacts.matches_chr in Ha as ->.
    apply JSFacts.matches_star_class, Forall_digit in Hds. eauto.
  - intros (ds & -> & Hds). exists [43%N], ds. split; [reflexivity|]. split.
    + apply JSFacts.matches_chr. reflexivity.
    + apply JSFacts.matches_star_class, Forall_digit, Hds.
Qed.

Lemma plus_not_alnum : ~ Spec.is_alnum 43%N.
Proof. unfold Spec.is_alnum. lia. Qed.

Lemma likeTel_test c :
  class_test likeTel c = true <-> c = 43%N \/ Spec.is_digit c \/ c = 40%N.
Proof.
  unfold class_test, likeTel, in_range, Spec.is_digit. simpl.
  rewrite orb_false_r, !orb_true_iff, !andb_true_iff, !N.leb_le. lia.
Qed.

Lemma isLikeTel_true s : isLikeTel s = true <-> Spec.starts_phone_like s.
Proof.
  unfold isLikeTel, Spec.starts_phone_like.
  rewrite JSFacts.test_start_matches. split.
  - intros (s1 & rest & E & H).
    apply JSFacts.matches_class in H as (c & -> & Hc).
    exists c, rest. split; [exact E | apply likeTel_test, Hc].
  - intros (c & rest & E & Hc). exists [c], rest. split; [exact E|].
    constructor. apply likeTel_test, Hc.
Qed.

Lemma isLikeTel_false s : isLikeTel s = false <-> ~ Spec.starts_phone_like s.
Proof.
  rewrite <- isLikeTel_true. destruct (isLikeTel s); split; congruence.
Qed.

Lemma alnum_not_white_space c : Spec.is_alnum c -> is_white_space c = false.
Proof.
  unfold Spec.is_alnum, is_white_space. intros H.
  repeat (apply orb_false_iff; split);
    try apply andb_false_iff; rewrite ?N.leb_gt, ?N.eqb_neq; lia.
Qed.

(** What the handler does once a callback is configured and the value is
    not empty. *)
Lemma handleChange_normalises p e h cb :
  prop_onChange p = Some cb -> target_value e <> [] ->
  let e' :=
    if onlyTel (inputTypes p) || isLikeTel (target_value e)
    then {| target_value :=
              43%N :: List.filter (class_test digit) (target_value e) |}
    else {| target_value := List.filter (class_test alnum) (target_value e) |}
  in handleChange p e h = (e', cb e' h).
Proof.
  intros Hcb Hne. unfold handleChange. rewrite Hcb.
  destruct (target_value e) as [|u s] eqn:Ev; [congruence|]. simpl negb.
  cbv iota. rewrite remove_all_not_digit, remove_all_not_alnum. reflexivity.
Qed.

End Normaliser.

Section NormaliserClaims.

Context {Host : Type}.
Implicit Types (p : Props Host) (s v : jsstring) (e : ChangeEvent) (h : Host).

(** C6. In tel-only mode, with a callback configured, a non-empty input is
    normalised to [+] followed by its digits, in order, every other code
    unit (an embedded [+] too) removed; the result matches [^\+[0-9]*$] and
    is what the callback receives. *)
Theorem tel_only_output_plus_digits p e h
    (cb : ChangeEvent -> Host -> Host) :
  Spec.tel_only (inputTypes p) ->
  prop_onChange p = Some cb ->
  target_value e <> [] ->
  let ds := List.filter (class_test digit) (target_value e) in
  let e' := {| target_value := 43%N :: ds |} in
  handleChange p e h = (e', cb e' h)
  /\ Forall Spec.is_digit ds
  /\ test_whole Spec.re_plus_digits (target_value e') = true.
Proof.
  intros Ht Hcb Hne ds e'.
  assert (Hds : Forall Spec.is_digit ds)
    by apply Forall_digit, Forall_filter_test.
  split; [|split; [exact Hds|]].
  - rewrite (handleChange_normalises p e h cb Hcb Hne).
    apply onlyTel_true in Ht. rewrite Ht. reflexivity.
  - apply re_plus_digits_test. exists ds. auto.
Qed.

(** C3, as the code has it: in sid-only mode, with a callback configured, a
    non-empty input that after trimming leading white space does not start
    with [+], a digit or [(] is normalised to its letters and digits and
    matches [^[a-zA-Z0-9]*$]; one that does start so is normalised as a
    phone number, to [+] and its digits, which does not match. *)
Theorem sid_only_output p e h (cb : ChangeEvent -> Host -> Host) :
  Spec.sid_only (inputTypes p) ->
  prop_onChange p = Some cb ->
  target_value e <> [] ->
  (~ Spec.starts_phone_like (target_value e) ->
   let e' :=
     {| target_value := List.filter (class_test alnum) (target_value e) |} in
   handleChange p e h = (e', cb e' h)
   /\ test_whole Spec.re_alnums (target_value e') = true)
  /\ (Spec.starts_phone_like (target_value e) ->
      let e' :=
        {| target_value :=
             43%N :: List.filter (class_test digit) (target_value e) |} in
      handleChange p e h = (e', cb e' h)
      /\ test_whole Spec.re_alnums (target_value e') = false).
Proof.
  intros Hs Hcb Hne.
  pose proof (handleChange_normalises p e h cb Hcb Hne) as H.
  unfold Spec.sid_only in Hs. rewrite Hs in H. simpl orb in H.
  split.
  - intros Hl e'. apply isLikeTel_false in Hl. rewrite Hl in H.
    split; [exact H|].
    apply re_alnums_test, Forall_alnum, Forall_filter_test.
  - intros Hl e'. apply isLikeTel_true in Hl. rewrite Hl in H.
    split; [exact H|].
    destruct (test_whole Spec.re_alnums (target_value e')) eqn:E;
      [|reflexivity].
    apply re_alnums_test in E. inversion E as [|? ? Hplus _].
    destruct (plus_not_alnum Hplus).
Qed.

(** C7, as the code has it: with a callback configured, a value in phone
    form is left as it is in every mode; a value in identifier form is left
    as it is exactly when the mode is not tel-only and the value does not
    start with a digit. *)
Theorem normalise_fixed_points p v h (cb : ChangeEvent -> Host -> Host) :
  prop_onChange p = Some cb ->
  (Spec.phone_form v ->
   handleChange p {| target_value := v |} h
   = ({| target_value := v |}, cb {| target_value := v |} h))
  /\ (Spec.identifier_form v ->
      (handleChange p {| target_value := v |} h
       = ({| target_value := v |}, cb {| target_value := v |} h)
       <-> ~ Spec.tel_only (inputTypes p) /\ ~ Spec.starts_with_digit v)).
Proof.
  intros Hcb. split.
  - intros (ds & Hne & Hds & ->).
    rewrite (handleChange_normalises p _ h cb Hcb) by discriminate.
    simpl target_value.
    assert (Hl : isLikeTel (43%N :: ds) = true).
    { apply isLikeTel_true. exists 43%N, ds. split; [reflexivity | auto]. }
    rewrite Hl, orb_true_r. simpl List.filter.
    rewrite filter_all_pass by (apply Forall_digit, Hds). reflexivity.
  - intros [Hne Hal].
    rewrite (handleChange_normalises p _ h cb Hcb) by exact Hne.
    simpl target_value.
    destruct v as [|c rest]; [congruence|].
    inversion Hal as [|? ? Hc Hrest]; subst.
    assert (Hl : isLikeTel (c :: rest) = true <-> Spec.is_digit c).
    { rewrite isLikeTel_true. unfold Spec.starts_phone_like. simpl.
      rewrite (alnum_not_white_space c Hc). split.
      - intros (c' & rest' & E & H). injection E as <- <-.
        destruct H as [->|[H| ->]]; [|exact H|];
          unfold Spec.is_alnum in Hc; lia.
      - intros H. exists c, rest. auto. }
    assert (Hd : Spec.starts_with_digit (c :: rest) <-> Spec.is_digit c).
    { unfold Spec.starts_with_digit. split.
      - intros (c' & rest' & E & H). injection E as <- <-. exact H.
      - intros H. eauto. }
    rewrite <- onlyTel_true, Hd, <- Hl.
    destruct (onlyTel (inputTypes p)), (isLikeTel (c :: rest)); simpl orb;
      cbv iota.
    1-3: split; [intros E; injection E as E _; subst c;
                 destruct (plus_not_alnum Hc)
                | intros [H1 H2]; congruence].
    rewrite filter_all_pass by (apply Forall_alnum, Hal).
    split; [split; congruence | reflexivity].
Qed.

(** C9. Without a callback the handler changes nothing and notifies no one;
    with a callback and an empty value it calls the callback with the event
    as it came. *)
Theorem handleChange_passthrough p e h :
  (prop_onChange p = None -> handleChange p e h = (e, h))
  /\ (forall cb : ChangeEvent -> Host -> Host,
        prop_onChange p = Some cb -> target_value e = [] ->
        handleChange p e h = (e, cb e h)).
Proof.
  unfold handleChange. split.
  - intros ->. reflexivity.
  - intros cb -> ->. reflexivity.
Qed.

(** C10. The handler gives the same event and the same callback call for the
    mode list [sid] as for [tel; sid], and more generally for any two
    configurations with the same callback that agree on [onlyTel]. *)
Theorem handleChange_mode_only_through_onlyTel :
  (forall ov od (oc : option (ChangeEvent -> Host -> Host)) e h,
     handleChange
       {| prop_value := ov; prop_inputTypes := Some [sid];
          prop_disabled := od; prop_onChange := oc |} e h
     = handleChange
       {| prop_value := ov; prop_inputTypes := Some [tel; sid];
          prop_disabled := od; prop_onChange := oc |} e h)
  /\ (forall p1 p2 e h,
        prop_onChange p1 = prop_onChange p2 ->
        onlyTel (inputTypes p1) = onlyTel (inputTypes p2) ->
        handleChange p1 e h = handleChange p2 e h).
Proof.
  assert (H : forall p1 p2 e h,
             prop_onChange p1 = prop_onChange p2 ->
             onlyTel (inputTypes p1) = onlyTel (inputTypes p2) ->
             handleChange p1 e h = handleChange p2 e h).
  { intros p1 p2 e h Hcb Hot. unfold handleChange.
    rewrite Hcb, Hot. reflexivity. }
  split; [|exact H].
  intros ov od oc e h. apply H; reflexivity.
Qed.

End NormaliserClaims.

(** ** Debounce *)

Module DebounceFacts.

Import Debounce.

Section Delay.

Variable D : nat.

Local Abbreviation step := (Debounce.step D).
Local Abbreviation run := (Debounce.run D).
Local Abbreviation flush := (Debounce.flush D).

Lemma run_app w evs1 evs2 :
  run w (evs1 ++ evs2) =
  match run w evs1 with Some w' => run w' evs2 | None => None end.
Proof.
  revert w. induction evs1 as [|ev evs1 IH]; intros w; simpl; [reflexivity|].
  destruct (step w ev); [apply IH | reflexivity].
Qed.

Lemma run_cleanup_timers w :
  single_pending w -> timers (run_cleanup w) = ∅.
Proof.
  intros [H1 _]. apply map_eq. intros i. rewrite lookup_empty.
  unfold run_cleanup. destruct (cleanup w) as [t|] eqn:Hc; simpl.
  - destruct (decide (t = i)) as [->|Hne].
    + apply lookup_delete_eq.
    + rewrite lookup_delete_ne by exact Hne.
      destruct (timers w !! i) as [tm|] eqn:Hi; [|reflexivity].
      specialize (H1 i tm Hi). congruence.
  - destruct (timers w !! i) as [tm|] eqn:Hi; [|reflexivity].
    specialize (H1 i tm Hi). congruence.
Qed.

Lemma run_cleanup_fields w :
  now (run_cleanup w) = now w /\ next_timer (run_cleanup w) = next_timer w
  /\ mounted (run_cleanup w) = mounted w /\ raw (run_cleanup w) = raw w
  /\ debouncedValue (run_cleanup w) = debouncedValue w
  /\ cleanup (run_cleanup w) = None
  /\ pending (run_cleanup w) = pending w.
Proof.
  unfold run_cleanup. destruct (cleanup w) eqn:E; simpl; auto 10.
Qed.

Lemma run_cleanup_lookup w t tm :
  timers (run_cleanup w) !! t = Some tm -> timers w !! t = Some tm.
Proof.
  unfold run_cleanup. destruct (cleanup w) as [c|]; simpl; [|auto].
  intros H. apply lookup_delete_Some in H. tauto.
Qed.

(** Running an owed effect leaves exactly the new timeout pending. *)
Lemma flush_rerun w v :
  single_pending w -> pending w = Some (rerun v) ->
  flush w =
  {| now := now w; next_timer := S (next_timer w);
     timers := {[ next_timer w := {| due := now w + D; captured := v |} ]};
     mounted := mounted w; raw := raw w; cleanup := Some (next_timer w);
     debouncedValue := debouncedValue w; pending := None |}.
Proof.
  intros Hs Hp. unfold Debounce.flush. rewrite Hp.
  unfold set_pending, run_effect. simpl.
  destruct (run_cleanup_fields w) as (E1 & E2 & E3 & E4 & E5 & _).
  rewrite (run_cleanup_timers w Hs), E1, E2, E3, E4, E5, insert_empty.
  reflexivity.
Qed.

Lemma flush_teardown w :
  single_pending w -> pending w = Some teardown ->
  flush w =
  {| now := now w; next_timer := next_timer w; timers := ∅;
     mounted := mounted w; raw := raw w; cleanup := None;
     debouncedValue := debouncedValue w; pending := None |}.
Proof.
  intros Hs Hp. unfold Debounce.flush. rewrite Hp. unfold set_pending.
  destruct (run_cleanup_fields w) as (E1 & E2 & E3 & E4 & E5 & E6 & _).
  rewrite (run_cleanup_timers w Hs), E1, E2, E3, E4, E5, E6. reflexivity.
Qed.

Lemma flush_idle w : pending w = None -> flush w = w.
Proof. intros Hp. unfold Debounce.flush. rewrite Hp. reflexivity. Qed.

(** What a flush keeps, whatever is owed. *)
Lemma flush_fields w :
  now (flush w) = now w /\ mounted (flush w) = mounted w
  /\ raw (flush w) = raw w /\ debouncedValue (flush w) = debouncedValue w
  /\ pending (flush w) = None /\ next_timer w <= next_timer (flush w).
Proof.
  unfold Debounce.flush.
  destruct (run_cleanup_fields w) as (E1 & E2 & E3 & E4 & E5 & _).
  destruct (pending w) as [[v|]|] eqn:Hp; simpl;
    rewrite ?E1, ?E2, ?E3, ?E4, ?E5; repeat split; auto; lia.
Qed.

Lemma flush_lookup w t tm :
  timers (flush w) !! t = Some tm ->
  timers w !! t = Some tm
  \/ (t = next_timer w /\ due tm = now w + D
      /\ pending w = Some (rerun (captured tm))).
Proof.
  unfold Debounce.flush.
  destruct (run_cleanup_fields w) as (E1 & E2 & _).
  destruct (pending w) as [[v|]|] eqn:Hp; simpl.
  - rewrite E1, E2. intros H. apply lookup_insert_Some in H.
    destruct H as [[<- <-]|[_ H]]; simpl; [auto|].
    left. apply run_cleanup_lookup, H.
  - intros H. left. apply run_cleanup_lookup, H.
  - auto.
Qed.

Lemma coherent_mount t0 id0 v : coherent (mount t0 id0 v).
Proof.
  split; [split|split]; simpl.
  - intros t tm H. rewrite lookup_empty in H. discriminate.
  - discriminate.
  - unfold owed_fits. simpl. auto.
  - intros H. discriminate H.
Qed.

Lemma coherent_flush w : coherent w -> coherent (flush w).
Proof.
  intros (Hs & Ho & Hu). unfold owed_fits in Ho.
  destruct (pending w) as [[v|]|] eqn:Hp.
  - rewrite (flush_rerun w v Hs Hp). destruct Ho as [Hm Hv].
    split; [split|split]; simpl.
    + intros t tm H. simpl in H.
      apply lookup_singleton_Some in H as [<- _]. reflexivity.
    + intros t H. simpl in H. injection H as <-. lia.
    + unfold owed_fits. simpl. congruence.
    + intros _ t tm H. simpl in H.
      apply lookup_singleton_Some in H as [_ <-]. simpl. exact Hv.
  - rewrite (flush_teardown w Hs Hp).
    split; [split|split]; simpl.
    + intros t tm H. simpl in H. rewrite lookup_empty in H. discriminate.
    + discriminate.
    + unfold owed_fits. simpl. auto.
    + intros _ t tm H. simpl in H. rewrite lookup_empty in H.
      discriminate.
  - rewrite (flush_idle w Hp). unfold coherent, owed_fits. rewrite Hp. auto.
Qed.

Lemma coherent_step w ev w' :
  coherent w -> step w ev = Some w' -> coherent w'.
Proof.
  intros Hc H. destruct ev as [v| |d|t|]; simpl in H.
  - destruct (mounted w) eqn:Hm; [|discriminate H].
    pose proof (coherent_flush w Hc) as (Hs & Ho & Hu).
    destruct (flush_fields w) as (_ & Em & _ & _ & Ep & _).
    destruct (decide (v = raw (flush w))); injection H as <-.
    + split; [|split]; assumption.
    + split; [exact Hs|]. split.
      * unfold owed_fits. simpl. split; [congruence | reflexivity].
      * intros E. discriminate E.
  - injection H as <-. apply coherent_flush, Hc.
  - injection H as <-. exact Hc.
  - destruct (timers w !! t) as [tm|] eqn:Ht; [|discriminate H].
    destruct (decide (due tm <= now w)); [|discriminate H].
    injection H as <-. destruct Hc as ([H1 H2] & Ho & Hu).
    split; [split|split]; simpl.
    + intros t' tm' Ht'. simpl in Ht'.
      apply lookup_delete_Some in Ht' as [_ Ht']. apply (H1 t' tm' Ht').
    + exact H2.
    + exact Ho.
    + intros Hp t' tm' Ht'. simpl in Hp, Ht'.
      apply lookup_delete_Some in Ht' as [_ Ht']. apply (Hu Hp t' tm' Ht').
  - destruct (mounted w) eqn:Hm; [|discriminate H]. injection H as <-.
    pose proof (coherent_flush w Hc) as (Hs & Ho & Hu).
    split; [exact Hs|]. split.
    + unfold owed_fits. reflexivity.
    + intros E. discriminate E.
Qed.

Lemma coherent_run evs w w' :
  coherent w -> run w evs = Some w' -> coherent w'.
Proof.
  revert w. induction evs as [|ev evs IH]; intros w Hc H; simpl in H.
  - injection H as <-. exact Hc.
  - destruct (step w ev) as [w1|] eqn:Hs; [|discriminate].
    eapply IH; [|exact H]. eapply coherent_step; eauto.
Qed.

Lemma step_monotone w ev w' :
  step w ev = Some w' ->
  now w <= now w' /\ next_timer w <= next_timer w'.
Proof.
  intros H. destruct (flush_fields w) as (En & _ & _ & _ & _ & Ek).
  destruct ev as [v| |d|t|]; simpl in H.
  - destruct (mounted w); [|discriminate H].
    destruct (decide (v = raw (flush w))); injection H as <-; simpl; lia.
  - injection H as <-. lia.
  - injection H as <-. simpl. lia.
  - destruct (timers w !! t) as [tm|]; [|discriminate H].
    destruct (decide (due tm <= now w)); [|discriminate H].
    injection H as <-. simpl. lia.
  - destruct (mounted w); [|discriminate H]. injection H as <-. simpl. lia.
Qed.

Lemma run_monotone evs w w' :
  run w evs = Some w' ->
  now w <= now w' /\ next_timer w <= next_timer w'.
Proof.
  revert w. induction evs as [|ev evs IH]; intros w H; simpl in H.
  - injection H as <-. lia.
  - destruct (step w ev) as [w1|] eqn:Hs; [|discriminate].
    apply step_monotone in Hs. apply IH in H. lia.
Qed.

Lemma none_due_flush T w :
  none_due_before T w -> T <= now w + D -> none_due_before T (flush w).
Proof.
  intros Hq HT t tm Ht. apply flush_lookup in Ht.
  destruct Ht as [Ht|(_ & -> & _)]; [apply (Hq t tm Ht) | exact HT].
Qed.

Lemma none_due_step T w ev w' :
  none_due_before T w -> T <= now w + D ->
  step w ev = Some w' -> now w' < T ->
  is_Fire ev = false /\ debouncedValue w' = debouncedValue w
  /\ none_due_before T w' /\ T <= now w' + D.
Proof.
  intros Hq HT H Hnow.
  pose proof (none_due_flush T w Hq HT) as Hqf.
  destruct (flush_fields w) as (En & _ & _ & Ed & _ & _).
  destruct ev as [v| |d|t|]; simpl in H.
  - destruct (mounted w); [|discriminate H].
    destruct (decide (v = raw (flush w))); injection H as <-; simpl;
      rewrite ?En, ?Ed; auto.
  - injection H as <-. rewrite En, Ed. auto.
  - injection H as <-. simpl in *. repeat split; [exact Hq | lia].
  - destruct (timers w !! t) as [tm|] eqn:Ht; [|discriminate H].
    destruct (decide (due tm <= now w)); [|discriminate H].
    injection H as <-. simpl in Hnow. specialize (Hq t tm Ht). lia.
  - destruct (mounted w); [|discriminate H]. injection H as <-. simpl.
    rewrite ?En, ?Ed. auto.
Qed.

(** While no pending timeout is due, nothing fires and [debouncedValue]
    stays. *)
Lemma none_due_run T evs w w' :
  none_due_before T w -> T <= now w + D ->
  run w evs = Some w' -> now w' < T ->
  existsb is_Fire evs = false /\ debouncedValue w' = debouncedValue w.
Proof.
  revert w. induction evs as [|ev evs IH]; intros w Hq HT H Hnow; simpl in H.
  - injection H as <-. auto.
  - destruct (step w ev) as [w1|] eqn:Hs; [|discriminate].
    pose proof (run_monotone _ _ _ H) as [Hm _].
    destruct (none_due_step T w ev w1 Hq HT Hs) as (Hf & Hd & Hq1 & HT1);
      [lia|].
    destruct (IH w1 Hq1 HT1 H Hnow) as [Hfs Hds].
    simpl. rewrite Hf, Hfs, Hds, Hd. auto.
Qed.

Lemma retired_flush k w : retired k w -> retired k (flush w).
Proof.
  intros [Hk Hlt]. destruct (flush_fields w) as (_ & _ & _ & _ & _ & Ek).
  split; [|lia].
  destruct (timers (flush w) !! k) as [tm|] eqn:E; [|reflexivity].
  apply flush_lookup in E. destruct E as [E|(E & _)]; [congruence | lia].
Qed.

Lemma retired_step k w ev w' :
  retired k w -> step w ev = Some w' -> retired k w'.
Proof.
  intros Hr H. pose proof (retired_flush k w Hr) as Hrf.
  destruct ev as [v| |d|t|]; simpl in H.
  - destruct (mounted w); [|discriminate H].
    destruct (decide (v = raw (flush w))); injection H as <-; exact Hrf.
  - injection H as <-. exact Hrf.
  - injection H as <-. exact Hr.
  - destruct (timers w !! t) as [tm|]; [|discriminate H].
    destruct (decide (due tm <= now w)); [|discriminate H].
    injection H as <-. destruct Hr as [Hk Hlt]. split; [|exact Hlt].
    simpl. apply lookup_delete_None. auto.
  - destruct (mounted w); [|discriminate H]. injection H as <-. exact Hrf.
Qed.

Lemma retired_run k evs w w' :
  retired k w -> run w evs = Some w' -> retired k w'.
Proof.
  revert w. induction evs as [|ev evs IH]; intros w Hr H; simpl in H.
  - injection H as <-. exact Hr.
  - destruct (step w ev) as [w1|] eqn:Hs; [|discriminate].
    eapply IH; [|exact H]. eapply retired_step; eauto.
Qed.

(** Once the effects have run, a timeout that fires installs the current
    [value] and leaves nothing pending. *)
Lemma fire_current w t w' :
  coherent w -> pending w = None -> mounted w = true ->
  step w (Fire t) = Some w' ->
  debouncedValue w' = raw w /\ timers w' = ∅.
Proof.
  intros ([H1 _] & _ & Hu) Hp Hm H. simpl in H.
  destruct (timers w !! t) as [tm|] eqn:Ht; [|discriminate H].
  destruct (decide (due tm <= now w)); [|discriminate H].
  injection H as <-. simpl. rewrite Hm.
  split; [apply (Hu Hp t tm Ht)|].
  apply map_eq. intros i. rewrite lookup_empty. apply lookup_delete_None.
  destruct (decide (t = i)) as [|Hne]; [auto|right].
  destruct (timers w !! i) as [tm'|] eqn:Hi; [|reflexivity].
  pose proof (H1 t tm Ht). pose proof (H1 i tm' Hi). congruence.
Qed.

(** The state of a component that is gone stays as it is. *)
Lemma unmounted_run evs w w' :
  mounted w = false -> run w evs = Some w' ->
  mounted w' = false /\ debouncedValue w' = debouncedValue w.
Proof.
  revert w. induction evs as [|ev evs IH]; intros w Hm H; simpl in H.
  - injection H as <-. auto.
  - destruct (step w ev) as [w1|] eqn:Hs; [|discriminate].
    assert (mounted w1 = false /\ debouncedValue w1 = debouncedValue w)
      as [Hm1 Hd1].
    { destruct (flush_fields w) as (_ & Em & _ & Ed & _ & _).
      destruct ev as [v| |d|t|]; simpl in Hs.
      - rewrite Hm in Hs. discriminate.
      - injection Hs as <-. split; congruence.
      - injection Hs as <-. auto.
      - destruct (timers w !! t) as [tm|]; [|discriminate Hs].
        destruct (decide (due tm <= now w)); [|discriminate Hs].
        injection Hs as <-. simpl. rewrite Hm. auto.
      - rewrite Hm in Hs. discriminate. }
    destruct (IH w1 Hm1 H) as [? ?]. split; congruence.
Qed.

(** Once the cleanup of a component that is gone has run, no timeout is
    pending, and none is ever scheduled. *)
Lemma cleaned_run evs w w' :
  mounted w = false -> pending w = None -> timers w = ∅ ->
  run w evs = Some w' -> timers w' = ∅.
Proof.
  revert w. induction evs as [|ev evs IH]; intros w Hm Hp Ht H; simpl in H.
  - injection H as <-. exact Ht.
  - destruct (step w ev) as [w1|] eqn:Hs; [|discriminate].
    assert (mounted w1 = false /\ pending w1 = None /\ timers w1 = ∅)
      as (Hm1 & Hp1 & Ht1).
    { destruct ev as [v| |d|t|]; simpl in Hs.
      - rewrite Hm in Hs. discriminate.
      - rewrite (flush_idle w Hp) in Hs. injection Hs as <-. auto.
      - injection Hs as <-. auto.
      - rewrite Ht, lookup_empty in Hs. discriminate.
      - rewrite Hm in Hs. discriminate. }
    apply (IH w1 Hm1 Hp1 Ht1 H).
Qed.

(** C8, as the code has it.  In every world reached from the mount: when
    React runs the effect owed for a change of [value], the previous timeout
    is cleared and exactly one is pending, the new one, due [D] later and
    carrying the new value; a timeout that fires once the effects have run
    installs the current [value].  If the effect of one change has run and
    the effect of a later change runs less than [D] after it, nothing fired
    in between, [debouncedValue] is untouched, the timeout of the first can
    never fire afterwards, and the second fires once [D] has passed and
    installs the second value.  After an unmount [debouncedValue] never
    changes, and once React has run the cleanup no timeout is pending, ever
    again. *)
Theorem debounce_supersession t0 id0 v0 evs0 w0 :
  run (mount t0 id0 v0) evs0 = Some w0 ->
  (forall v w1, pending w0 = Some (rerun v) -> step w0 Flush = Some w1 ->
     v = raw w0
     /\ timers w1
        = {[ next_timer w0 := {| due := now w0 + D; captured := v |} ]})
  /\ (forall t w1, pending w0 = None -> mounted w0 = true ->
        step w0 (Fire t) = Some w1 -> debouncedValue w1 = raw w0)
  /\ (forall v1 w1 evs w2 v2 w3,
        pending w0 = Some (rerun v1) -> step w0 Flush = Some w1 ->
        run w1 evs = Some w2 -> now w2 < now w1 + D ->
        pending w2 = Some (rerun v2) -> step w2 Flush = Some w3 ->
        existsb is_Fire evs = false
        /\ debouncedValue w3 = debouncedValue w0
        /\ timers w3
           = {[ next_timer w2 := {| due := now w2 + D; captured := v2 |} ]}
        /\ (forall evs' w4, run w3 evs' = Some w4 ->
              step w4 (Fire (next_timer w0)) = None)
        /\ (exists w5,
              run w3 [Elapse D; Fire (next_timer w2)] = Some w5
              /\ debouncedValue w5 = v2))
  /\ (forall w1, step w0 Unmount = Some w1 ->
        (forall evs w2, run w1 evs = Some w2 ->
           debouncedValue w2 = debouncedValue w1)
        /\ (forall w2, step w1 Flush = Some w2 ->
              timers w2 = ∅
              /\ forall evs w3, run w2 evs = Some w3 -> timers w3 = ∅)).
Proof.
  intros Hrun.
  assert (Hc0 : coherent w0).
  { eapply coherent_run; [apply coherent_mount | exact Hrun]. }
  split; [|split; [|split]].
  - intros v w1 Hp Hs. simpl in Hs. injection Hs as <-.
    destruct Hc0 as (Hs0 & Ho & _). rewrite (flush_rerun w0 v Hs0 Hp). simpl.
    unfold owed_fits in Ho. rewrite Hp in Ho. split; [tauto | reflexivity].
  - intros t w1 Hp Hm Hs. apply (fire_current w0 t w1 Hc0 Hp Hm Hs).
  - intros v1 w1 evs w2 v2 w3 Hp1 Hs1 Hevs Hnow Hp2 Hs3.
    simpl in Hs1. injection Hs1 as <-.
    simpl in Hs3. injection Hs3 as <-.
    pose proof Hc0 as (Hs0 & _ & _).
    pose proof (flush_rerun w0 v1 Hs0 Hp1) as E1.
    assert (Hc2 : coherent w2).
    { eapply coherent_run; [|exact Hevs]. apply coherent_flush, Hc0. }
    pose proof Hc2 as (Hs2 & Ho2 & _).
    pose proof (flush_rerun w2 v2 Hs2 Hp2) as E3.
    unfold owed_fits in Ho2. rewrite Hp2 in Ho2. destruct Ho2 as [Hm2 _].
    assert (Hq : none_due_before (now (flush w0) + D) (flush w0)).
    { rewrite E1. intros t tm Ht. simpl in Ht.
      apply lookup_singleton_Some in Ht as [_ <-]. simpl. lia. }
    destruct (none_due_run (now (flush w0) + D) evs _ w2 Hq (le_n _)
                Hevs Hnow) as [Hnf Hd2].
    pose proof (run_monotone _ _ _ Hevs) as [_ Hk].
    rewrite E1 in Hk, Hd2. simpl in Hk, Hd2.
    split; [exact Hnf|]. rewrite E3. simpl.
    split; [exact Hd2|]. split; [reflexivity|]. split.
    + intros evs' w4 Hevs'.
      assert (Hr : retired (next_timer w0)
                     (flush w2)).
      { rewrite E3. split; simpl; [|lia].
        apply lookup_singleton_ne. lia. }
      rewrite <- E3 in Hevs'.
      destruct (retired_run _ _ _ _ Hr Hevs') as [Hnone _].
      simpl. rewrite Hnone. reflexivity.
    + rewrite lookup_singleton_eq. simpl.
      destruct (decide (now w2 + D <= now w2 + D)) as [_|Hn]; [|lia].
      eexists. split; [reflexivity|]. simpl. rewrite Hm2. reflexivity.
  - intros w1 Hs.
    assert (Hc1 : coherent w1) by (eapply coherent_step; eauto).
    simpl in Hs. destruct (mounted w0); [|discriminate Hs].
    injection Hs as <-. split.
    + intros evs w2 Hevs.
      eapply unmounted_run in Hevs as [_ Hd]; [exact Hd | reflexivity].
    + intros w2 Hs2. simpl in Hs2. injection Hs2 as <-.
      destruct Hc1 as (Hs1 & _ & _).
      assert (E : flush (commit_unmount (flush w0))
                  = {| now := now (flush w0);
                       next_timer := next_timer (flush w0); timers := ∅;
                       mounted := false; raw := raw (flush w0);
                       cleanup := None;
                       debouncedValue := debouncedValue (flush w0);
                       pending := None |}).
      { apply (flush_teardown _ Hs1). reflexivity. }
      rewrite E. simpl. split; [reflexivity|].
      intros evs w3 Hevs.
      eapply cleaned_run in Hevs; [exact Hevs | reflexivity..].
Qed.

End Delay.

End DebounceFacts.

(** ** The code on concrete inputs *)

Section Samples.

Import Examples.

Example skip_tel_only_no_plus :
  skipValidation (props_of (Some [tel]) []) (lit "123") = true.
Proof. reflexivity. Qed.

Example skip_mixed_identifier :
  skipValidation (props_of (Some [tel; sid]) []) (lit "MGabc123") = true.
Proof. reflexivity. Qed.

Example skip_default_mode_phone :
  skipValidation (props_of None []) (lit "+14155551234") = false.
Proof. reflexivity. Qed.

Example normalise_pasted_phone :
  handleChange (props_of (Some [tel]) []) (change (lit " +1 (415) 555-12+34")) []
  = (change (lit "+14155551234"), [lit "+14155551234"]).
Proof. reflexivity. Qed.

Example normalise_identifier_mixed :
  handleChange (props_of (Some [tel; sid]) [])
    (change (lit "MG ab-12")) []
  = (change (lit "MGab12"), [lit "MGab12"]).
Proof. reflexivity. Qed.

(** Leading white space is skipped before the first character decides. *)
Example normalise_trims_before_deciding :
  handleChange (props_of (Some [sid]) []) (change (lit "  (MG1")) []
  = (change (lit "+1"), [lit "+1"]).
Proof. reflexivity. Qed.

(** The list [tel; tel] is none of the three modes: it includes [tel] and is
    not tel-only, so a value with the identifier pattern is looked up. *)
Example lookup_outside_the_modes :
  ~ Spec.is_mode [tel; tel]
  /\ skipValidation (props_of (Some [tel; tel]) []) (lit "MGabc") = false.
Proof.
  split; [|reflexivity].
  intros [H|[H|[_ H]]]; try discriminate H.
  destruct H as [H|[H|[]]]; discriminate H.
Qed.

End Samples.

(** C3 as stated fails: in sid-only mode the non-empty input [1] is
    normalised to [+1], which does not match [^[a-zA-Z0-9]*$]. *)
Lemma sid_only_digit_input_gets_plus :
  let p := Examples.props_of (Some [sid]) [] in
  Spec.sid_only (inputTypes p)
  /\ lit "1" <> []
  /\ handleChange p (Examples.change (lit "1")) []
     = (Examples.change (lit "+1"), [lit "+1"])
  /\ test_whole Spec.re_alnums (lit "+1") = false.
Proof. repeat split. discriminate. Qed.

(** C7 as stated fails: [123] is in identifier form and mixed mode turns it
    into [+123]; [MGabc] is in identifier form and tel-only mode turns it
    into [+]. *)
Lemma identifier_form_not_fixed :
  Spec.identifier_form (lit "123")
  /\ handleChange (Examples.props_of (Some [tel; sid]) [])
       (Examples.change (lit "123")) []
     = (Examples.change (lit "+123"), [lit "+123"])
  /\ Spec.identifier_form (lit "MGabc")
  /\ handleChange (Examples.props_of (Some [tel]) [])
       (Examples.change (lit "MGabc")) []
     = (Examples.change (lit "+"), [lit "+"]).
Proof.
  repeat split; try discriminate; apply re_alnums_test; reflexivity.
Qed.

(** ** The theorems at concrete inputs *)

Lemma skip_iff_six_conditions_witness :
  let p := Examples.props_of (Some [tel]) (lit "+14155551234") in
  Spec.tel_only (inputTypes p) /\ disabled p = false
  /\ skip (query_options p (lit "+14155551234")) = false.
Proof.
  intros p. split; [reflexivity|]. split; [reflexivity|].
  apply (proj2 (skip_iff_six_conditions p [])); reflexivity.
Defined.

Lemma lookup_only_for_tel_non_identifier_witness :
  let p := Examples.props_of (Some [tel; sid]) [] in
  Spec.is_mode (inputTypes p)
  /\ skip (query_options p (lit "+15551234")) = false
  /\ Spec.mode_includes (inputTypes p) tel
  /\ ~ Spec.identifier_pattern (lit "+15551234").
Proof.
  intros p.
  assert (Hm : Spec.is_mode (inputTypes p)).
  { right; right. split; simpl; auto. }
  split; [exact Hm|]. split; [reflexivity|].
  apply (lookup_only_for_tel_non_identifier p (lit "+15551234") Hm).
  reflexivity.
Defined.

Lemma indicator_cases_witness :
  let p := Examples.props_of (Some [tel; sid]) (lit "MGxyz") in
  let q := Examples.props_of (Some [tel]) (lit "+15551234") in
  adorn p (Examples.resolved true) = None
  /\ adorn q (Examples.resolved true) = Some Check
  /\ adorn q None = Some Close.
Proof.
  intros p q.
  assert (Hq : ~ (value q = []
                  \/ (Spec.mode_includes (inputTypes q) sid
                      /\ Spec.identifier_pattern (value q))
                  \/ disabled q = true)).
  { intros [H|[[H _]|H]]; [discriminate H | | discriminate H].
    simpl in H. destruct H as [H|[]]. discriminate H. }
  pose proof (indicator_cases p (Examples.resolved true)) as Hp.
  pose proof (indicator_cases q (Examples.resolved true)) as Hv.
  pose proof (indicator_cases q None) as Hu.
  cbv zeta in Hp, Hv, Hu.
  destruct Hp as (_ & _ & _ & Hp & _).
  destruct Hv as (_ & Hv & _).
  destruct Hu as (_ & _ & Hu & _).
  split; [|split].
  - apply Hp; reflexivity.
  - apply Hv; [exact Hq | reflexivity].
  - apply Hu; [exact Hq | discriminate].
Defined.

Lemma tel_only_output_plus_digits_witness :
  let p := Examples.props_of (Some [tel]) [] in
  let e := Examples.change (lit "+1 (415) 555+12a") in
  handleChange p e [] = (Examples.change (lit "+141555512"), [lit "+141555512"])
  /\ test_whole Spec.re_plus_digits (lit "+141555512") = true.
Proof.
  intros p e.
  destruct (tel_only_output_plus_digits p e [] Examples.recording)
    as (H1 & _ & H3); [reflexivity | reflexivity | discriminate |].
  split; [exact H1 | exact H3].
Defined.

Lemma sid_only_output_witness :
  let p := Examples.props_of (Some [sid]) [] in
  (handleChange p (Examples.change (lit "MG ab-c!1")) []
   = (Examples.change (lit "MGabc1"), [lit "MGabc1"])
   /\ test_whole Spec.re_alnums (lit "MGabc1") = true)
  /\ (handleChange p (Examples.change (lit "1-a")) []
      = (Examples.change (lit "+1"), [lit "+1"])
      /\ test_whole Spec.re_alnums (lit "+1") = false).
Proof.
  intros p. split.
  - apply (sid_only_output p (Examples.change (lit "MG ab-c!1")) []
             Examples.recording); try reflexivity; [discriminate|].
    apply isLikeTel_false. reflexivity.
  - apply (sid_only_output p (Examples.change (lit "1-a")) []
             Examples.recording); try reflexivity; [discriminate|].
    apply isLikeTel_true. reflexivity.
Defined.

Lemma normalise_fixed_points_witness :
  (handleChange (Examples.props_of (Some [sid]) [])
     (Examples.change (lit "+123")) []
   = (Examples.change (lit "+123"), [lit "+123"]))
  /\ (handleChange (Examples.props_of (Some [tel; sid]) [])
        (Examples.change (lit "MGabc")) []
      = (Examples.change (lit "MGabc"), [lit "MGabc"])).
Proof.
  split.
  - destruct (normalise_fixed_points (Examples.props_of (Some [sid]) [])
                (lit "+123") [] Examples.recording eq_refl) as [Hphone _].
    apply Hphone.
    exists (lit "123"). split; [discriminate|]. split; [|reflexivity].
    apply Forall_digit, JSFacts.matches_star_class,
      JSFacts.test_whole_matches. reflexivity.
  - destruct (normalise_fixed_points
                (Examples.props_of (Some [tel; sid]) [])
                (lit "MGabc") [] Examples.recording eq_refl) as [_ Hid].
    apply Hid.
    + split; [discriminate|]. apply re_alnums_test. reflexivity.
    + split; [discriminate|].
      intros (c & rest & E & Hc). injection E as <- _.
      unfold Spec.is_digit in Hc. lia.
Defined.

Lemma handleChange_passthrough_witness :
  let silent : Props (list jsstring) :=
    {| prop_value := Some []; prop_inputTypes := None;
       prop_disabled := None; prop_onChange := None |} in
  handleChange silent (Examples.change (lit "+1 x")) []
  = (Examples.change (lit "+1 x"), [])
  /\ handleChange (Examples.props_of None (lit "+1")) (Examples.change []) []
     = (Examples.change [], [[]]).
Proof.
  intros silent. split.
  - apply (handleChange_passthrough silent). reflexivity.
  - apply (proj2 (handleChange_passthrough (Examples.props_of None (lit "+1"))
                    (Examples.change []) []) Examples.recording);
      reflexivity.
Defined.

Lemma handleChange_mode_only_through_onlyTel_witness :
  let p1 := Examples.props_of (Some [sid]) [] in
  let p2 := Examples.props_of (Some [sid; tel]) (lit "+1") in
  onlyTel (inputTypes p1) = onlyTel (inputTypes p2)
  /\ handleChange p1 (Examples.change (lit "(MG 1")) []
     = handleChange p2 (Examples.change (lit "(MG 1")) [].
Proof.
  intros p1 p2. split; [reflexivity|].
  apply (proj2 (@handleChange_mode_only_through_onlyTel (list jsstring)));
    reflexivity.
Defined.

(** C8 as stated fails.  [value] becomes [+1] and its effect runs at time 0;
    1 ms later [value] changes to [+12], and until React runs the effect of
    that render the timeout for [+1] is still pending; 249 ms later it fires
    and [debouncedValue] becomes [+1], the superseded value. *)
Lemma superseded_timeout_fires :
  let w0 := Debounce.mount 0 1 [] in
  exists w1 w2 w3,
    Debounce.run 250 w0
      [Debounce.Flush; Debounce.Render (lit "+1"); Debounce.Flush] = Some w1
    /\ Debounce.run 250 w1 [Debounce.Elapse 1; Debounce.Render (lit "+12")]
       = Some w2
    /\ Debounce.raw w2 = lit "+12"
    /\ Debounce.timers w2
       = {[ 2 := {| Debounce.due := 250; Debounce.captured := lit "+1" |} ]}
    /\ Debounce.run 250 w2 [Debounce.Elapse 249; Debounce.Fire 2] = Some w3
    /\ Debounce.now w3 = 250
    /\ Debounce.raw w3 = lit "+12"
    /\ Debounce.debouncedValue w3 = lit "+1".
Proof.
  intros w0. do 3 eexists.
  split; [reflexivity|]. split; [reflexivity|]. split; [reflexivity|].
  split; [reflexivity|]. split; [reflexivity|]. repeat split.
Qed.

Lemma debounce_supersession_witness :
  let evs0 := [Debounce.Flush; Debounce.Render (lit "+1")] in
  let w0 := default (Debounce.mount 0 1 [])
              (Debounce.run 250 (Debounce.mount 0 1 []) evs0) in
  exists w1 w2 w3,
    Debounce.step 250 w0 Debounce.Flush = Some w1
    /\ Debounce.run 250 w1
         [Debounce.Elapse 100; Debounce.Render (lit "+12")] = Some w2
    /\ Debounce.now w2 < Debounce.now w1 + 250
    /\ Debounce.step 250 w2 Debounce.Flush = Some w3
    /\ Debounce.debouncedValue w3 = []
    /\ (forall evs w4, Debounce.run 250 w3 evs = Some w4 ->
          Debounce.step 250 w4 (Debounce.Fire 2) = None)
    /\ (exists w5,
          Debounce.run 250 w3 [Debounce.Elapse 250; Debounce.Fire 3] = Some w5
          /\ Debounce.debouncedValue w5 = lit "+12").
Proof.
  intros evs0 w0.
  destruct (DebounceFacts.debounce_supersession 250 0 1 [] evs0 w0 eq_refl)
    as (_ & _ & H & _).
  pose (w1 := default w0 (Debounce.step 250 w0 Debounce.Flush)).
  pose (w2 := default w0
                (Debounce.run 250 w1
                   [Debounce.Elapse 100; Debounce.Render (lit "+12")])).
  pose (w3 := default w0 (Debounce.step 250 w2 Debounce.Flush)).
  assert (Hlt : Debounce.now w2 < Debounce.now w1 + 250)
    by (subst evs0 w0 w1 w2; vm_compute; lia).
  destruct (H (lit "+1") w1
              [Debounce.Elapse 100; Debounce.Render (lit "+12")] w2
              (lit "+12") w3)
    as (_ & Hd & _ & Hnever & Hsecond);
    [reflexivity | reflexivity | reflexivity | exact Hlt | reflexivity
    | reflexivity |].
  exists w1, w2, w3.
  split; [reflexivity|]. split; [reflexivity|]. split; [exact Hlt|].
  split; [reflexivity|]. split; [exact Hd|].
  split; [exact Hnever | exact Hsecond].
Defined.

(** ** More about the input normaliser *)

Section NormaliserMore.

Context {Host : Type}.
Implicit Types (p : Props Host) (s v : jsstring) (e : ChangeEvent) (h : Host).

Lemma handleChange_normalised p e h cb :
  prop_onChange p = Some cb ->
  handleChange p e h
  = ({| target_value := normalised (inputTypes p) (target_value e) |},
     cb {| target_value := normalised (inputTypes p) (target_value e) |} h).
Proof.
  intros Hcb. unfold handleChange, normalised. rewrite Hcb.
  destruct e as [v]. simpl.
  destruct (truthy v); simpl; [|reflexivity].
  destruct (onlyTel (inputTypes p) || isLikeTel v); reflexivity.
Qed.

Lemma handleChange_value p e h :
  target_value (fst (handleChange p e h))
  = match prop_onChange p with
    | Some _ => normalised (inputTypes p) (target_value e)
    | None => target_value e
    end.
Proof.
  destruct (prop_onChange p) as [cb|] eqn:Hcb.
  - rewrite (handleChange_normalised p e h cb Hcb). reflexivity.
  - unfold handleChange. rewrite Hcb. reflexivity.
Qed.

Lemma normalised_cases l v :
  normalised l v =
  if negb (truthy v) then v
  else if onlyTel l || isLikeTel v
  then 43%N :: List.filter (class_test digit) v
  else List.filter (class_test alnum) v.
Proof.
  unfold normalised. rewrite remove_all_not_digit, remove_all_not_alnum.
  reflexivity.
Qed.

Lemma digit_is_alnum u : class_test digit u = true -> class_test alnum u = true.
Proof.
  rewrite JSFacts.digit_test, JSFacts.alnum_test.
  unfold Spec.is_digit, Spec.is_alnum. tauto.
Qed.

Lemma plus_not_digit : class_test digit 43%N = false.
Proof. reflexivity. Qed.

Lemma filter_filter_sub (f g : code_unit -> bool) s :
  (forall u, f u = true -> g u = true) ->
  List.filter f (List.filter g s) = List.filter f s.
Proof.
  intros Hsub. induction s as [|u s IH]; simpl; [reflexivity|].
  destruct (g u) eqn:Hg; simpl.
  - rewrite IH. reflexivity.
  - destruct (f u) eqn:Hf; [|exact IH].
    rewrite (Hsub u Hf) in Hg. discriminate.
Qed.

Lemma filter_idem (f : code_unit -> bool) s :
  List.filter f (List.filter f s) = List.filter f s.
Proof. apply filter_filter_sub. auto. Qed.

Lemma normalised_digits l v :
  List.filter (class_test digit) (normalised l v)
  = List.filter (class_test digit) v.
Proof.
  rewrite normalised_cases.
  destruct (negb (truthy v)); [reflexivity|].
  destruct (onlyTel l || isLikeTel v).
  - simpl. apply filter_idem.
  - apply filter_filter_sub, digit_is_alnum.
Qed.

(** X1. The handler never loses, adds or reorders a digit: in every mode,
    with or without a callback, the digits of the value it leaves in the
    event are the digits of the value it was given. *)
Theorem handleChange_keeps_digits p e h :
  List.filter (class_test digit) (target_value (fst (handleChange p e h)))
  = List.filter (class_test digit) (target_value e).
Proof.
  rewrite handleChange_value.
  destruct (prop_onChange p); [apply normalised_digits | reflexivity].
Qed.

Lemma isLikeTel_plus s : isLikeTel (43%N :: s) = true.
Proof. destruct s; reflexivity. Qed.

Lemma truthy_filter_false (f : code_unit -> bool) v :
  truthy v = false -> truthy (List.filter f v) = false.
Proof. destruct v; [reflexivity | discriminate]. Qed.

(** A value the phone branch produced is left alone. *)
Lemma normalised_plus_digits l ds :
  Forall (fun u => class_test digit u = true) ds ->
  normalised l (43%N :: ds) = 43%N :: ds.
Proof.
  intros Hds. rewrite normalised_cases. simpl negb. cbv iota.
  rewrite isLikeTel_plus, orb_true_r. simpl.
  rewrite (filter_all_pass _ ds Hds). reflexivity.
Qed.

Lemma isLikeTel_alnum c s :
  class_test alnum c = true ->
  isLikeTel (c :: s) = class_test digit c.
Proof.
  intros Hc. apply JSFacts.alnum_test in Hc.
  destruct (class_test digit c) eqn:Hd.
  - apply isLikeTel_true. exists c, s. simpl.
    rewrite (alnum_not_white_space c Hc). split; [reflexivity|].
    right; left. apply JSFacts.digit_test, Hd.
  - apply isLikeTel_false. intros (c' & s' & E & H). simpl in E.
    rewrite (alnum_not_white_space c Hc) in E. injection E as <- <-.
    destruct H as [->|[H| ->]].
    + destruct (plus_not_alnum Hc).
    + apply JSFacts.digit_test in H. congruence.
    + unfold Spec.is_alnum in Hc. lia.
Qed.

(** What a second pass does to a value the identifier branch produced. *)
Lemma normalised_alnums l s :
  onlyTel l = false ->
  Forall (fun u => class_test alnum u = true) s ->
  normalised l s =
  match s with
  | c :: _ =>
      if class_test digit c
      then 43%N :: List.filter (class_test digit) s
      else s
  | [] => []
  end.
Proof.
  intros Hl Hs. rewrite normalised_cases, Hl.
  destruct s as [|c s]; [reflexivity|]. simpl negb. cbv iota. simpl orb.
  inversion Hs as [|? ? Hc Hrest]; subst.
  rewrite (isLikeTel_alnum c s Hc).
  destruct (class_test digit c); [reflexivity|].
  apply filter_all_pass, Hs.
Qed.

Lemma normalised_twice l v :
  normalised l (normalised l (normalised l v)) = normalised l (normalised l v).
Proof.
  assert (Hphone : forall ds,
             normalised l (43%N :: List.filter (class_test digit) ds)
             = 43%N :: List.filter (class_test digit) ds).
  { intros ds. apply normalised_plus_digits, Forall_filter_test. }
  rewrite (normalised_cases l v).
  destruct (truthy v) eqn:Hv; simpl negb; cbv iota.
  2:{ assert (E : normalised l v = v).
      { rewrite normalised_cases, Hv. reflexivity. }
      rewrite !E. reflexivity. }
  destruct (onlyTel l) eqn:Hl; simpl orb; cbv iota.
  { rewrite !Hphone. reflexivity. }
  destruct (isLikeTel v).
  { rewrite !Hphone. reflexivity. }
  pose proof (Forall_filter_test (class_test alnum) v) as Hal.
  rewrite (normalised_alnums l _ Hl Hal).
  destruct (List.filter (class_test alnum) v) as [|c s] eqn:E;
    [reflexivity|].
  destruct (class_test digit c) eqn:Hc.
  - rewrite Hphone. reflexivity.
  - rewrite (normalised_alnums l _ Hl Hal), Hc. reflexivity.
Qed.

(** X2. The handler settles after two passes: feeding its result back to it
    a second and a third time gives the same event, in every mode, for every
    input, with or without a callback. *)
Theorem handleChange_settles_in_two_passes p e h1 h2 h3 :
  let e1 := fst (handleChange p e h1) in
  let e2 := fst (handleChange p e1 h2) in
  fst (handleChange p e2 h3) = e2.
Proof.
  intros e1 e2.
  assert (E : forall a b : ChangeEvent,
             target_value a = target_value b -> a = b).
  { intros [a] [b]. simpl. congruence. }
  apply E. unfold e2, e1. rewrite !handleChange_value.
  destruct (prop_onChange p); [apply normalised_twice | reflexivity].
Qed.

End NormaliserMore.

Section NormaliserShape.

Context {Host : Type}.
Implicit Types (p : Props Host) (s v : jsstring) (e : ChangeEvent) (h : Host).

Lemma starts_with_digit_cons c s :
  Spec.starts_with_digit (c :: s) <-> class_test digit c = true.
Proof.
  rewrite JSFacts.digit_test. unfold Spec.starts_with_digit. split.
  - intros (c' & s' & E & H). injection E as <- <-. exact H.
  - intros H. eauto.
Qed.

(** X3. With a callback and a non-empty input, a second pass leaves the
    result of the first alone exactly when the first pass took the phone
    branch (tel-only mode, or an input that starts like a phone number) or
    the letters and digits of the input do not start with a digit. *)
Theorem handleChange_second_pass_fixed p e h1 h2
    (cb : ChangeEvent -> Host -> Host) :
  prop_onChange p = Some cb ->
  target_value e <> [] ->
  (fst (handleChange p (fst (handleChange p e h1)) h2)
   = fst (handleChange p e h1)
   <-> Spec.tel_only (inputTypes p)
       \/ Spec.starts_phone_like (target_value e)
       \/ ~ Spec.starts_with_digit
            (List.filter (class_test alnum) (target_value e))).
Proof.
  intros Hcb Hne.
  rewrite (handleChange_normalised p e h1 cb Hcb). simpl fst.
  rewrite (handleChange_normalised p _ h2 cb Hcb). simpl.
  set (l := inputTypes p). set (v := target_value e) in *.
  rewrite <- onlyTel_true, <- isLikeTel_true.
  assert (Hiff : normalised l (normalised l v) = normalised l v <->
                 onlyTel l = true \/ isLikeTel v = true
                 \/ ~ Spec.starts_with_digit
                      (List.filter (class_test alnum) v)).
  { rewrite (normalised_cases l v).
    destruct v as [|u v']; [congruence|]. simpl negb. cbv iota.
    destruct (onlyTel l) eqn:Hl; simpl orb; cbv iota.
    { split; [auto|]. intros _.
      apply normalised_plus_digits, Forall_filter_test. }
    destruct (isLikeTel (u :: v')) eqn:Hlike.
    { split; [auto|]. intros _.
      apply normalised_plus_digits, Forall_filter_test. }
    pose proof (Forall_filter_test (class_test alnum) (u :: v')) as Hal.
    rewrite (normalised_alnums l _ Hl Hal).
    destruct (List.filter (class_test alnum) (u :: v')) as [|c s] eqn:E.
    { split; [|reflexivity]. intros _. right; right.
      intros (c & s & E' & _). discriminate E'. }
    rewrite starts_with_digit_cons.
    destruct (class_test digit c) eqn:Hc.
    - split.
      + intros E'. injection E' as E' _. subst c. discriminate Hc.
      + intros [H|[H|H]]; [discriminate H | discriminate H | congruence].
    - split; [|reflexivity]. intros _. right; right. congruence. }
  rewrite <- Hiff. split; [|congruence].
  intros E. injection E as E. exact E.
Qed.

(** X4. With a callback and a non-empty input, in every mode the value left
    in the event is either [+] followed by digits only or made of ASCII
    letters and digits only, and it is at most one code unit longer than the
    input. *)
Theorem handleChange_output_shape p e h (cb : ChangeEvent -> Host -> Host) :
  prop_onChange p = Some cb ->
  target_value e <> [] ->
  let out := target_value (fst (handleChange p e h)) in
  (test_whole Spec.re_plus_digits out = true
   \/ test_whole Spec.re_alnums out = true)
  /\ length out <= S (length (target_value e)).
Proof.
  intros Hcb Hne out. unfold out.
  rewrite handleChange_value, Hcb, normalised_cases.
  destruct (target_value e) as [|u v'] eqn:Ev; [congruence|].
  simpl negb. cbv iota.
  destruct (onlyTel (inputTypes p) || isLikeTel (u :: v')).
  - split.
    + left. apply re_plus_digits_test. eexists. split; [reflexivity|].
      apply Forall_digit, Forall_filter_test.
    + pose proof (List.filter_length_le (class_test digit) (u :: v')).
      cbn [length] in *. lia.
  - split.
    + right. apply re_alnums_test, Forall_alnum, Forall_filter_test.
    + pose proof (List.filter_length_le (class_test alnum) (u :: v')).
      cbn [length] in *. lia.
Qed.

Lemma filter_nonempty_Exists (f : code_unit -> bool) s :
  List.filter f s <> [] <-> Exists (fun u => f u = true) s.
Proof.
  induction s as [|u s IH]; simpl.
  - split; [congruence | inversion 1].
  - destruct (f u) eqn:Hu.
    + split; [intros _; left; exact Hu | discriminate].
    + rewrite IH. split; [right; assumption|].
      inversion 1; subst; [congruence | assumption].
Qed.

Lemma Exists_digit s :
  Exists (fun u => class_test digit u = true) s <-> Exists Spec.is_digit s.
Proof.
  rewrite !List.Exists_exists. split; intros (u & Hu & H); exists u;
    (split; [exact Hu | apply JSFacts.digit_test, H]).
Qed.

(** X5. Normaliser and trigger together in tel-only mode: with the field
    enabled and a callback configured, the value the handler produces from a
    non-empty input is looked up exactly when the input holds at least one
    digit (a bare [+] is not looked up). *)
Theorem tel_only_lookup_iff_digit p e h (cb : ChangeEvent -> Host -> Host) :
  Spec.tel_only (inputTypes p) ->
  disabled p = false ->
  prop_onChange p = Some cb ->
  target_value e <> [] ->
  (skip (query_options p (target_value (fst (handleChange p e h)))) = false
   <-> Exists Spec.is_digit (target_value e)).
Proof.
  intros Ht Hd Hcb Hne. simpl skip.
  pose proof Ht as Hot. apply onlyTel_true in Hot.
  set (ds := List.filter (class_test digit) (target_value e)).
  assert (Hout : target_value (fst (handleChange p e h)) = 43%N :: ds).
  { rewrite handleChange_value, Hcb, normalised_cases, Hot.
    destruct (target_value e); [congruence | reflexivity]. }
  rewrite Hout, skipValidation_orb, Hd, Hot.
  unfold Spec.tel_only in Ht. rewrite Ht.
  assert (E : negb (truthy (43%N :: ds)) || false
              || negb (includes [tel] tel)
              || true && negb (test_start reTel (43%N :: ds))
              || isSID [tel] (43%N :: ds) || onlySID [tel]
              = negb (test_start reTel (43%N :: ds))).
  { unfold isSID. destruct (test_start reTel (43%N :: ds)); reflexivity. }
  rewrite E. clear E.
  rewrite <- Exists_digit, <- filter_nonempty_Exists. fold ds.
  rewrite negb_false_iff, reTel_test. split.
  - intros (ds' & rest & Hne' & _ & E). injection E as E.
    intros Hnil. rewrite Hnil in E. destruct ds'; [congruence|discriminate].
  - intros Hnil. exists ds, []. rewrite app_nil_r.
    repeat split; [exact Hnil|].
    apply Forall_digit, Forall_filter_test.
Qed.

End NormaliserShape.

(** ** Trigger, indicator and presentation together *)

Section PresentationFacts.

Context {Host Node : Type}.
Variable node_truthy : Node -> bool.
Variable text : jsstring -> Node.
Variable end_adornment : Adornment -> Node.
Implicit Types (p : Props Host) (r : TextFieldProps Node).

(** X6. Once the debounced value has caught up with the value: a value that
    is looked up always has an indicator, the valid one for a valid result
    and the invalid one otherwise; so where no indicator is shown nothing is
    looked up. *)
Theorem looked_up_value_has_indicator p (data : option QueryData) :
  (skip (query_options p (value p)) = false ->
   adorn p data = Some (if valid data then Check else Close))
  /\ (adorn p data = None -> skip (query_options p (value p)) = true).
Proof.
  assert (H : skipValidation p (value p) = false ->
              adorn p data = Some (if valid data then Check else Close)).
  { rewrite skipValidation_orb. unfold adorn.
    destruct (value p) as [|u v]; [discriminate|]. simpl.
    destruct (disabled p); [discriminate|].
    destruct (isSID (inputTypes p) (u :: v)).
    - rewrite !orb_true_r. discriminate.
    - intros _. simpl. destruct (valid data); reflexivity. }
  split; [exact H|]. simpl.
  intros Hn. destruct (skipValidation p (value p)); [reflexivity|].
  rewrite H in Hn by reflexivity. discriminate.
Qed.

(** X7. The host's [InputProps] always win: every property the host set
    keeps its value, [endAdornment] too; the indicator is put under
    [endAdornment] only when there is one and the host set no
    [endAdornment]; no other property is added. *)
Theorem InputProps_lookup p r (data : option QueryData) (k : jsstring) :
  default ∅ (InputProps end_adornment p r data) !! k
  = match default ∅ (prop_InputProps r) !! k with
    | Some n => Some n
    | None =>
        if decide (k = lit "endAdornment")
        then end_adornment <$> adorn p data
        else None
    end.
Proof.
  unfold InputProps. destruct (adorn p data) as [a|]; simpl.
  - rewrite lookup_union.
    destruct (default ∅ (prop_InputProps r) !! k) as [n|]; simpl.
    + destruct (({[lit "endAdornment" := end_adornment a]}
                 : gmap jsstring Node) !! k); reflexivity.
    + destruct (decide (k = lit "endAdornment")) as [->|Hne].
      * rewrite lookup_singleton_eq. reflexivity.
      * rewrite lookup_singleton_ne by congruence. reflexivity.
  - destruct (default ∅ (prop_InputProps r) !! k); [reflexivity|].
    destruct (decide (k = lit "endAdornment")); reflexivity.
Qed.

Lemma onlyTel_includes l : onlyTel l = true -> includes l tel = true.
Proof. intros H. apply onlyTel_true in H. rewrite H. reflexivity. Qed.

(** X8. Provided a string node is truthy exactly when the string is not
    empty: the helper text is the host's whenever that is truthy, and
    otherwise one of the two instructions or the empty string; it is truthy,
    so something is shown, exactly when the host's is truthy or the mode
    includes [tel]. *)
Theorem getHelperText_truthy p r :
  (forall s, node_truthy (text s) = truthy s) ->
  let host_truthy :=
    match prop_helperText r with Some n => node_truthy n | None => false end in
  (host_truthy = true ->
   Some (getHelperText node_truthy text p r) = prop_helperText r)
  /\ node_truthy (getHelperText node_truthy text p r)
     = host_truthy || includes (inputTypes p) tel.
Proof.
  intros Htext host_truthy. unfold host_truthy, getHelperText.
  destruct (prop_helperText r) as [n|]; simpl.
  - destruct (node_truthy n) eqn:Hn; simpl.
    + split; [reflexivity | exact Hn].
    + split; [discriminate|].
      destruct (onlyTel (inputTypes p)) eqn:Hot.
      * rewrite (onlyTel_includes _ Hot), Htext. reflexivity.
      * destruct (includes (inputTypes p) tel); rewrite Htext; reflexivity.
  - split; [discriminate|].
    destruct (onlyTel (inputTypes p)) eqn:Hot.
    + rewrite (onlyTel_includes _ Hot), Htext. reflexivity.
    + destruct (includes (inputTypes p) tel); rewrite Htext; reflexivity.
Qed.

End PresentationFacts.

(** ** More about the debounce effect *)

Module DebounceMore.

Import Debounce DebounceInv DebounceFacts.

Section Delay.

Variable D : nat.

Local Abbreviation step := (Debounce.step D).
Local Abbreviation run := (Debounce.run D).
Local Abbreviation flush := (Debounce.flush D).

Lemma reached_coherent t0 id0 v0 evs w :
  run (mount t0 id0 v0) evs = Some w -> coherent w.
Proof.
  intros H. eapply coherent_run; [apply coherent_mount | exact H].
Qed.

(** With a single pending timeout the table is empty or a singleton. *)
Lemma single_pending_table w :
  single_pending w ->
  timers w = ∅
  \/ exists t tm, cleanup w = Some t /\ timers w = {[ t := tm ]}.
Proof.
  intros [H1 _].
  destruct (cleanup w) as [t|] eqn:Hc.
  - destruct (timers w !! t) as [tm|] eqn:Ht.
    + right. exists t, tm. split; [reflexivity|].
      apply map_eq. intros i. destruct (decide (t = i)) as [<-|Hne].
      * rewrite lookup_singleton_eq. exact Ht.
      * rewrite lookup_singleton_ne by exact Hne.
        destruct (timers w !! i) as [tm'|] eqn:Hi; [|reflexivity].
        specialize (H1 i tm' Hi). congruence.
    + left. apply map_eq. intros i. rewrite lookup_empty.
      destruct (timers w !! i) as [tm'|] eqn:Hi; [|reflexivity].
      specialize (H1 i tm' Hi). congruence.
  - left. apply map_eq. intros i. rewrite lookup_empty.
    destruct (timers w !! i) as [tm'|] eqn:Hi; [|reflexivity].
    specialize (H1 i tm' Hi). congruence.
Qed.

(** X9. No timeout piles up: in every world reached from the mount at most
    one timeout is pending, and it is the one the kept cleanup clears; for a
    component that is gone none is pending once React has run the cleanup
    it owes. *)
Theorem at_most_one_timeout t0 id0 v0 evs w :
  run (mount t0 id0 v0) evs = Some w ->
  size (timers w) <= 1
  /\ (forall t, is_Some (timers w !! t) -> cleanup w = Some t)
  /\ (mounted w = false -> pending w = None -> timers w = ∅).
Proof.
  intros H. apply reached_coherent in H.
  destruct H as (Hs & Ho & _). pose proof Hs as [H1 _].
  split; [|split].
  - destruct (single_pending_table w Hs) as [E|(t & tm & _ & E)]; rewrite E.
    + rewrite map_size_empty. lia.
    + rewrite map_size_singleton. lia.
  - intros t [tm Ht]. apply (H1 t tm Ht).
  - intros Hm Hp. unfold owed_fits in Ho. rewrite Hp in Ho.
    specialize (Ho Hm).
    destruct (single_pending_table w Hs) as [E|(t & tm & Hc & _)];
      [exact E | congruence].
Qed.

Lemma singleton_not_empty (t : nat) (tm : Timer) :
  ({[ t := tm ]} : gmap nat Timer) <> ∅.
Proof.
  intros E. assert (H : ({[ t := tm ]} : gmap nat Timer) !! t = None)
    by (rewrite E; apply lookup_empty).
  rewrite lookup_singleton_eq in H. discriminate.
Qed.

Lemma idle_in_sync_flush w :
  coherent w -> idle_in_sync w -> idle_in_sync (flush w).
Proof.
  intros (Hs & Ho & _) Hi. unfold owed_fits in Ho.
  destruct (pending w) as [[v|]|] eqn:Hp.
  - rewrite (flush_rerun D w v Hs Hp). intros _ _ E. simpl in E.
    destruct (singleton_not_empty _ _ E).
  - rewrite (flush_teardown D w Hs Hp). intros Hm. simpl in Hm. congruence.
  - rewrite (flush_idle D w Hp). exact Hi.
Qed.

Lemma idle_in_sync_step w ev w' :
  coherent w -> idle_in_sync w -> step w ev = Some w' -> idle_in_sync w'.
Proof.
  intros Hc Hi H. pose proof (idle_in_sync_flush w Hc Hi) as Hif.
  destruct ev as [v| |d|t|]; simpl in H.
  - destruct (mounted w); [|discriminate H].
    destruct (decide (v = raw (flush w))); injection H as <-; [exact Hif|].
    intros _ Hp. simpl in Hp. discriminate.
  - injection H as <-. exact Hif.
  - injection H as <-. exact Hi.
  - destruct (timers w !! t) as [tm|] eqn:Ht; [|discriminate H].
    destruct (decide (due tm <= now w)); [|discriminate H].
    injection H as <-. intros Hm Hp _. simpl in *. rewrite Hm.
    destruct Hc as (_ & _ & Hu). apply (Hu Hp t tm Ht).
  - destruct (mounted w); [|discriminate H]. injection H as <-.
    intros Hm. simpl in Hm. discriminate.
Qed.

Lemma due_within_step w ev w' :
  due_within D w -> step w ev = Some w' -> due_within D w'.
Proof.
  intros Hq H.
  assert (Hqf : due_within D (flush w)).
  { intros t tm Ht. destruct (flush_fields D w) as (En & _).
    rewrite En. apply flush_lookup in Ht.
    destruct Ht as [Ht|(_ & -> & _)]; [apply (Hq t tm Ht) | lia]. }
  destruct ev as [v| |d|t|]; simpl in H.
  - destruct (mounted w); [|discriminate H].
    destruct (decide (v = raw (flush w))); injection H as <-; exact Hqf.
  - injection H as <-. exact Hqf.
  - injection H as <-. intros t tm Ht. simpl in *.
    specialize (Hq t tm Ht). lia.
  - destruct (timers w !! t) as [tm|]; [|discriminate H].
    destruct (decide (due tm <= now w)); [|discriminate H].
    injection H as <-. intros t' tm' Ht'. simpl in *.
    apply lookup_delete_Some in Ht' as [_ Ht']. apply (Hq t' tm' Ht').
  - destruct (mounted w); [|discriminate H]. injection H as <-. exact Hqf.
Qed.

Lemma reached_invariants t0 id0 v0 evs w :
  run (mount t0 id0 v0) evs = Some w ->
  coherent w /\ idle_in_sync w /\ due_within D w.
Proof.
  assert (Hgen : forall evs w0 w,
             coherent w0 /\ idle_in_sync w0 /\ due_within D w0 ->
             run w0 evs = Some w ->
             coherent w /\ idle_in_sync w /\ due_within D w).
  { clear. induction evs as [|ev evs IH]; intros w0 w Hinv H; simpl in H.
    - injection H as <-. exact Hinv.
    - destruct (Debounce.step D w0 ev) as [w1|] eqn:Hs; [|discriminate].
      destruct Hinv as (H1 & H2 & H3). apply (IH w1 w); [|exact H].
      split; [eapply coherent_step; eauto|].
      split; [eapply idle_in_sync_step; eauto|].
      eapply due_within_step; eauto. }
  apply Hgen. split; [apply coherent_mount|]. split.
  - intros _ Hp. simpl in Hp. discriminate.
  - intros t tm Ht. simpl in Ht. rewrite lookup_empty in Ht. discriminate.
Qed.

(** X10. The debounced value catches up: in every world reached from the
    mount with the component still mounted, either nothing is owed or
    pending and [debouncedValue] is the current [value], or, once React has
    run what it owes and [D] has passed, the pending timeout can run and
    leaves [debouncedValue] equal to the current [value] with nothing
    pending. *)
Theorem debounce_catches_up t0 id0 v0 evs w :
  run (mount t0 id0 v0) evs = Some w ->
  mounted w = true ->
  (pending w = None /\ timers w = ∅ /\ debouncedValue w = raw w)
  \/ (exists t w',
        run w [Flush; Elapse D; Fire t] = Some w'
        /\ debouncedValue w' = raw w
        /\ timers w' = ∅ /\ pending w' = None /\ raw w' = raw w).
Proof.
  intros H Hm.
  destruct (reached_invariants _ _ _ _ _ H) as (Hc & Hi & Hd).
  pose proof Hc as (Hs & Ho & Hu). unfold owed_fits in Ho.
  destruct (pending w) as [[v|]|] eqn:Hp.
  - right. exists (next_timer w). destruct Ho as [_ Hv]. simpl.
    rewrite (flush_rerun D w v Hs Hp). simpl.
    rewrite lookup_singleton_eq. simpl.
    destruct (decide (now w + D <= now w + D)) as [_|Hn]; [|lia].
    eexists. split; [reflexivity|]. simpl. rewrite Hm.
    split; [exact Hv|]. split; [apply delete_singleton_eq | auto].
  - congruence.
  - destruct (single_pending_table w Hs) as [E|(t & tm & _ & E)].
    + left. split; [reflexivity|]. split; [exact E|]. apply Hi; assumption.
    + right. exists t.
      assert (Ht : timers w !! t = Some tm)
        by (rewrite E; apply lookup_singleton_eq).
      pose proof (Hd t tm Ht) as Hdue. simpl.
      rewrite (flush_idle D w Hp). simpl. rewrite Ht.
      destruct (decide (due tm <= now w + D)) as [_|Hn]; [|lia].
      eexists. split; [reflexivity|]. simpl. rewrite Hm.
      split; [apply (Hu Hp t tm Ht)|].
      split; [rewrite E; apply delete_singleton_eq | auto].
Qed.

(** X11. Nothing reaches [debouncedValue] sooner than [D] after React has
    run the effect of a change: whatever happens after that (renders,
    further changes, an unmount), as long as less than [D] has passed no
    timeout fires and [debouncedValue] is what it was. *)
Theorem no_update_within_delay t0 id0 v0 evs0 w0 v w1 evs w2 :
  run (mount t0 id0 v0) evs0 = Some w0 ->
  pending w0 = Some (rerun v) ->
  step w0 Flush = Some w1 ->
  run w1 evs = Some w2 ->
  now w2 < now w1 + D ->
  debouncedValue w2 = debouncedValue w0 /\ existsb is_Fire evs = false.
Proof.
  intros H0 Hp Hs Hevs Hnow.
  pose proof (reached_coherent _ _ _ _ _ H0) as (Hs0 & _ & _).
  simpl in Hs. injection Hs as <-.
  pose proof (flush_rerun D w0 v Hs0 Hp) as E.
  assert (Hq : none_due_before (now (flush w0) + D) (flush w0)).
  { rewrite E. intros t tm Ht. simpl in Ht.
    apply lookup_singleton_Some in Ht as [_ <-]. simpl. lia. }
  destruct (none_due_run D (now (flush w0) + D) evs _ w2 Hq (le_n _)
              Hevs Hnow) as [Hnf Hd].
  rewrite E in Hd. simpl in Hd. split; [exact Hd | exact Hnf].
Qed.

Lemma rendered_snoc v0 evs ev v :
  rendered v0 evs v -> rendered v0 (evs ++ [ev]) v.
Proof.
  unfold rendered. intros [H|H]; [auto|]. right. apply in_or_app. auto.
Qed.

Lemma captured_rendered_flush v0 evs w :
  coherent w -> rendered v0 evs (raw w) ->
  captured_rendered v0 evs w -> captured_rendered v0 evs (flush w).
Proof.
  intros (_ & Ho & _) Hr Hcr t tm Ht. apply flush_lookup in Ht.
  destruct Ht as [Ht|(_ & _ & Hp)]; [apply (Hcr t tm Ht)|].
  unfold owed_fits in Ho. rewrite Hp in Ho. destruct Ho as [_ ->].
  exact Hr.
Qed.

(** X12. The effect never invents a value: [debouncedValue] is the empty
    string it starts with or a value [value] had, at the mount or at one of
    the renders so far; the same holds for the current [value] and for the
    value any pending timeout would install. *)
Theorem debounced_was_rendered t0 id0 v0 evs w :
  run (mount t0 id0 v0) evs = Some w ->
  rendered v0 evs (raw w)
  /\ (debouncedValue w = [] \/ rendered v0 evs (debouncedValue w))
  /\ captured_rendered v0 evs w.
Proof.
  revert w. induction evs as [|ev evs IH] using rev_ind; intros w H.
  - simpl in H. injection H as <-. simpl. unfold rendered. repeat split; auto.
    intros t tm Ht. simpl in Ht. rewrite lookup_empty in Ht. discriminate.
  - rewrite run_app in H.
    destruct (Debounce.run D (mount t0 id0 v0) evs) as [w1|] eqn:H1;
      [|discriminate].
    simpl in H. destruct (Debounce.step D w1 ev) as [w'|] eqn:Hs;
      [|discriminate]. injection H as <-.
    destruct (IH w1 eq_refl) as (Hr & Hd & Hcr).
    pose proof (reached_coherent _ _ _ _ _ H1) as Hc.
    pose proof (captured_rendered_flush v0 evs w1 Hc Hr Hcr) as Hcf.
    destruct (flush_fields D w1) as (_ & _ & Er & Ed & _ & _).
    assert (Hd' : debouncedValue w1 = []
                  \/ rendered v0 (evs ++ [ev]) (debouncedValue w1)).
    { destruct Hd; [auto | right; apply rendered_snoc; assumption]. }
    assert (Hcr' : forall w2, captured_rendered v0 evs w2 ->
                     captured_rendered v0 (evs ++ [ev]) w2).
    { intros w2 Hw t tm Ht. apply rendered_snoc, (Hw t tm Ht). }
    apply (rendered_snoc _ _ ev) in Hr.
    destruct ev as [v| |d|t|]; simpl in Hs.
    + destruct (mounted w1); [|discriminate Hs].
      destruct (decide (v = raw (flush w1))); injection Hs as <-; simpl;
        rewrite ?Er, ?Ed.
      * repeat split; auto.
      * repeat split; [|exact Hd' | apply (Hcr' _ Hcf)].
        right. apply in_or_app. right. left. reflexivity.
    + injection Hs as <-. rewrite Er, Ed. repeat split; auto.
    + injection Hs as <-. simpl. repeat split; auto.
    + destruct (timers w1 !! t) as [tm|] eqn:Ht; [|discriminate Hs].
      destruct (decide (due tm <= now w1)); [|discriminate Hs].
      injection Hs as <-. simpl. repeat split; [exact Hr | |].
      * destruct (mounted w1); [|exact Hd'].
        right. apply rendered_snoc, (Hcr t tm Ht).
      * intros t' tm' Ht'. simpl in Ht'.
        apply lookup_delete_Some in Ht' as [_ Ht'].
        apply rendered_snoc, (Hcr t' tm' Ht').
    + destruct (mounted w1); [|discriminate Hs]. injection Hs as <-. simpl.
      rewrite Er, Ed. repeat split; auto.
Qed.

End Delay.

End DebounceMore.

(** ** The further theorems at concrete inputs *)

Lemma handleChange_second_pass_fixed_witness :
  let p := Examples.props_of (Some [tel; sid]) [] in
  let e := Examples.change (lit "MG-1") in
  fst (handleChange p (fst (handleChange p e [])) []) = fst (handleChange p e []).
Proof.
  intros p e.
  apply (handleChange_second_pass_fixed p e [] [] Examples.recording);
    [reflexivity | discriminate |].
  right; right. intros (c & rest & E & Hc). vm_compute in E.
  injection E as <- _. unfold Spec.is_digit in Hc. lia.
Defined.

Lemma handleChange_output_shape_witness :
  let p := Examples.props_of (Some [tel; sid]) [] in
  let e := Examples.change (lit " +1 (415)x") in
  let out := target_value (fst (handleChange p e [])) in
  (test_whole Spec.re_plus_digits out = true
   \/ test_whole Spec.re_alnums out = true)
  /\ length out <= S (length (target_value e)).
Proof.
  intros p e.
  apply (handleChange_output_shape p e [] Examples.recording);
    [reflexivity | discriminate].
Defined.

Lemma tel_only_lookup_iff_digit_witness :
  let p := Examples.props_of None [] in
  let e := Examples.change (lit "a1") in
  skip (query_options p (target_value (fst (handleChange p e [])))) = false.
Proof.
  intros p e.
  apply (tel_only_lookup_iff_digit p e [] Examples.recording);
    [reflexivity | reflexivity | reflexivity | discriminate |].
  apply Exists_digit, filter_nonempty_Exists. discriminate.
Defined.

Lemma looked_up_value_has_indicator_witness :
  let p := Examples.props_of (Some [tel]) (lit "+15551234") in
  skip (query_options p (value p)) = false
  /\ adorn p (Examples.resolved true) = Some Check.
Proof.
  intros p. split; [reflexivity|].
  apply (proj1 (looked_up_value_has_indicator p (Examples.resolved true))).
  reflexivity.
Defined.

Lemma getHelperText_truthy_witness :
  let p := Examples.props_of (Some [tel; sid]) [] in
  let r : TextFieldProps jsstring :=
    {| prop_helperText := Some []; prop_InputProps := None |} in
  truthy (getHelperText truthy (fun s => s) p r) = true.
Proof.
  intros p r.
  apply (proj2 (getHelperText_truthy truthy (fun s => s) p r
                  (fun s => eq_refl))).
Defined.

Lemma at_most_one_timeout_witness :
  let evs := [Debounce.Flush; Debounce.Render (lit "+1"); Debounce.Elapse 10;
              Debounce.Render (lit "+12")] in
  let w := default (Debounce.mount 0 1 [])
             (Debounce.run 250 (Debounce.mount 0 1 []) evs) in
  Debounce.run 250 (Debounce.mount 0 1 []) evs = Some w
  /\ size (Debounce.timers w) <= 1.
Proof.
  intros evs w. split; [reflexivity|].
  apply (DebounceMore.at_most_one_timeout 250 0 1 [] evs w). reflexivity.
Defined.

Lemma debounce_catches_up_witness :
  let evs := [Debounce.Flush; Debounce.Render (lit "+1");
              Debounce.Elapse 10] in
  let w := default (Debounce.mount 0 1 [])
             (Debounce.run 250 (Debounce.mount 0 1 []) evs) in
  (Debounce.pending w = None /\ Debounce.timers w = ∅
   /\ Debounce.debouncedValue w = Debounce.raw w)
  \/ (exists t w',
        Debounce.run 250 w
          [Debounce.Flush; Debounce.Elapse 250; Debounce.Fire t] = Some w'
        /\ Debounce.debouncedValue w' = Debounce.raw w
        /\ Debounce.timers w' = ∅ /\ Debounce.pending w' = None
        /\ Debounce.raw w' = Debounce.raw w).
Proof.
  intros evs w.
  apply (DebounceMore.debounce_catches_up 250 0 1 [] evs w); reflexivity.
Defined.

Lemma no_update_within_delay_witness :
  let evs0 := [Debounce.Flush; Debounce.Render (lit "+1")] in
  let w0 := default (Debounce.mount 0 1 [])
              (Debounce.run 250 (Debounce.mount 0 1 []) evs0) in
  let w1 := default w0 (Debounce.step 250 w0 Debounce.Flush) in
  let evs := [Debounce.Elapse 100; Debounce.Render (lit "+12");
              Debounce.Elapse 100; Debounce.Unmount] in
  let w2 := default w0 (Debounce.run 250 w1 evs) in
  Debounce.run 250 w1 evs = Some w2
  /\ Debounce.debouncedValue w2 = Debounce.debouncedValue w0
  /\ existsb Debounce.is_Fire evs = false.
Proof.
  intros evs0 w0 w1 evs w2. split; [reflexivity|].
  apply (DebounceMore.no_update_within_delay 250 0 1 [] evs0 w0 (lit "+1")
           w1 evs w2);
    [reflexivity | reflexivity | reflexivity | reflexivity
    | subst evs0 w0 w1 evs w2; vm_compute; lia].
Defined.

Lemma debounced_was_rendered_witness :
  let evs := [Debounce.Flush; Debounce.Render (lit "+1"); Debounce.Flush;
              Debounce.Elapse 250; Debounce.Fire 2] in
  let w := default (Debounce.mount 0 1 [])
             (Debounce.run 250 (Debounce.mount 0 1 []) evs) in
  Debounce.debouncedValue w = lit "+1"
  /\ DebounceInv.rendered [] evs (Debounce.raw w)
  /\ (Debounce.debouncedValue w = []
      \/ DebounceInv.rendered [] evs (Debounce.debouncedValue w))
  /\ DebounceInv.captured_rendered [] evs w.
Proof.
  intros evs w. split; [reflexivity|].
  apply (DebounceMore.debounced_was_rendered 250 0 1 [] evs w). reflexivity.
Defined.

(** ** The handler keeps what the trigger recognises *)

Section Recognised.

Context {Host : Type}.
Implicit Types (p : Props Host) (s v : jsstring) (e : ChangeEvent) (h : Host).

Lemma identifier_not_like_tel v : Spec.identifier_pattern v -> isLikeTel v = false.
Proof.
  intros (body & rest & _ & _ & ->). apply isLikeTel_false.
  intros (c & s & E & H). simpl in E. injection E as <- _.
  unfold Spec.is_digit in H. lia.
Qed.

Lemma includes_sid_not_onlyTel l : includes l sid = true -> onlyTel l = false.
Proof.
  intros H. destruct (onlyTel l) eqn:E; [|reflexivity].
  apply onlyTel_true in E. rewrite E in H. discriminate.
Qed.

Lemma normalised_identifier l v :
  includes l sid = true -> Spec.identifier_pattern v ->
  Spec.identifier_pattern (normalised l v).
Proof.
  intros Hl Hv. rewrite normalised_cases.
  rewrite (includes_sid_not_onlyTel l Hl), (identifier_not_like_tel v Hv).
  destruct Hv as (body & rest & Hne & Hbody & ->). simpl.
  rewrite List.filter_app.
  rewrite (filter_all_pass _ body) by (apply Forall_alnum, Hbody).
  exists body, (List.filter (class_test alnum) rest). auto.
Qed.

Lemma normalised_phone l v :
  Spec.phone_pattern v -> Spec.phone_pattern (normalised l v).
Proof.
  intros (ds & rest & Hne & Hds & ->). rewrite normalised_cases.
  simpl negb. cbv iota. rewrite isLikeTel_plus, orb_true_r.
  simpl. rewrite List.filter_app.
  rewrite (filter_all_pass _ ds) by (apply Forall_digit, Hds).
  exists ds, (List.filter (class_test digit) rest). auto.
Qed.

(** X13. The handler keeps what the trigger recognises, in every mode and
    with or without a callback: a value classified as an identifier is still
    one in the event the handler leaves, and a value that passes the phone
    test [reTel] still passes it. *)
Theorem handleChange_keeps_classification p e h :
  (isSID (inputTypes p) (target_value e) = true ->
   isSID (inputTypes p) (target_value (fst (handleChange p e h))) = true)
  /\ (test_start reTel (target_value e) = true ->
      test_start reTel (target_value (fst (handleChange p e h))) = true).
Proof.
  rewrite handleChange_value.
  destruct (prop_onChange p); [|auto]. split.
  - unfold isSID. rewrite !andb_true_iff, !reSID_test. intros [Hl Hv].
    split; [exact Hl | apply normalised_identifier; assumption].
  - rewrite !reTel_test. apply normalised_phone.
Qed.

End Recognised.

Lemma handleChange_keeps_classification_witness :
  let p := Examples.props_of (Some [tel; sid]) [] in
  isSID (inputTypes p)
    (target_value (fst (handleChange p (Examples.change (lit "MGab-c 1")) [])))
  = true
  /\ test_start reTel
       (target_value
          (fst (handleChange p (Examples.change (lit "+1 (415)")) [])))
     = true.
Proof.
  intros p. split.
  - apply (proj1 (handleChange_keeps_classification p
                    (Examples.change (lit "MGab-c 1")) [])). reflexivity.
  - apply (proj2 (handleChange_keeps_classification p
                    (Examples.change (lit "+1 (415)")) [])). reflexivity.
Defined.
